(** * climatecontrol: the settings parser

    A shallow embedding of [climatecontrol/settings_parser.py] and the
    properties of its three algorithms: the decomposition of environment
    variables into a nested map ([parse_env_vars]), the nested merge
    ([update_nested]) and the subtree filter ([subtree]), together with the
    [Settings] object that chains them.

    Conventions of the embedding.
    - Python objects that the parser handles are the trees of type [value]:
      [None], integers (standing for every non-string scalar a TOML file can
      hold), strings and dictionaries with string keys.  A dictionary is the
      list of its items in insertion order.
    - Filter specifications have a type of their own, [filter]: [None], a
      string, a mapping from strings to filters, a collection of filters,
      and an integer standing for any object of another type.
    - Strings are over the ASCII repertoire: [lower], [upper] and [lstrip]
      are those of Python on ASCII strings, and a property that holds of
      the program on such strings only is stated for ASCII arguments.
    - Exceptions are the [Raise] outcomes of [result].  The environment,
      the file system, the log and the identity of the objects handed to
      and returned by [subtree] live in the state of the monad [M]: an
      object is an address in the heap, and what a computation reads or
      logs is recorded as a trace of events.
    - [update_nested] is a function from the old content of [d] to the new
      one; [d] and [u] are distinct objects, as they are at every call of
      the program. *)

From Stdlib Require Import String Ascii List ZArith Bool Lia PeanoNat.
Import ListNotations.
Open Scope string_scope.
Open Scope list_scope.

Set Implicit Arguments.

(** ** Python strings *)

Module Str.

Definition is_upper (c : ascii) : bool :=
  let n := nat_of_ascii c in (65 <=? n)%nat && (n <=? 90)%nat.

Definition is_lower (c : ascii) : bool :=
  let n := nat_of_ascii c in (97 <=? n)%nat && (n <=? 122)%nat.

Definition lower_char (c : ascii) : ascii :=
  if is_upper c then ascii_of_nat (nat_of_ascii c + 32) else c.

Definition upper_char (c : ascii) : ascii :=
  if is_lower c then ascii_of_nat (nat_of_ascii c - 32) else c.

Fixpoint map (f : ascii -> ascii) (s : string) : string :=
  match s with
  | EmptyString => EmptyString
  | String c rest => String (f c) (map f rest)
  end.

(** [s.lower()] and [s.upper()] *)
Definition lower : string -> string := map lower_char.
Definition upper : string -> string := map upper_char.

Fixpoint mem (c : ascii) (chars : string) : bool :=
  match chars with
  | EmptyString => false
  | String c' rest => Ascii.eqb c c' || mem c rest
  end.

(** [s.lstrip(chars)] *)
Fixpoint lstrip_chars (chars s : string) : string :=
  match s with
  | EmptyString => EmptyString
  | String c rest => if mem c chars then lstrip_chars chars rest else s
  end.

(** [s.rstrip(chars)] *)
Fixpoint rstrip_chars (chars s : string) : string :=
  match s with
  | EmptyString => EmptyString
  | String c rest =>
      match rstrip_chars chars rest with
      | EmptyString => if mem c chars then EmptyString else String c EmptyString
      | r => String c r
      end
  end.

(** [s.strip(chars)] *)
Definition strip_chars (chars s : string) : string :=
  lstrip_chars chars (rstrip_chars chars s).

(** The characters [str.isspace] accepts, within ASCII: tab, line feed,
    vertical tab, form feed, carriage return, the four separators
    0x1c-0x1f and the space. *)
Definition isspace (c : ascii) : bool :=
  let n := nat_of_ascii c in
  ((9 <=? n)%nat && (n <=? 13)%nat) || ((28 <=? n)%nat && (n <=? 32)%nat).

(** [s.lstrip()] *)
Fixpoint lstrip (s : string) : string :=
  match s with
  | EmptyString => EmptyString
  | String c rest => if isspace c then lstrip rest else s
  end.

(** [s.startswith(p)] *)
Definition startswith (s p : string) : bool := String.prefix p s.

(** [s[n:]] *)
Fixpoint drop (n : nat) (s : string) : string :=
  match n, s with
  | O, _ => s
  | S n', String _ rest => drop n' rest
  | S _, EmptyString => EmptyString
  end.

(** [s.split(sep, maxsplit)] for a separator of one character.  The
    budget is [None] when [maxsplit] is negative (no limit) and the
    number of splits still allowed otherwise. *)
Fixpoint split_budget (sep : ascii) (budget : option nat) (s : string)
  : list string :=
  match budget with
  | Some O => [s]
  | _ =>
      match s with
      | EmptyString => [EmptyString]
      | String c rest =>
          if Ascii.eqb c sep then
            EmptyString :: split_budget sep (option_map pred budget) rest
          else
            match split_budget sep budget rest with
            | piece :: more => String c piece :: more
            | [] => [String c EmptyString]
            end
      end
  end.

Definition split (sep : ascii) (maxsplit : Z) (s : string) : list string :=
  split_budget sep (if (maxsplit <? 0)%Z then None else Some (Z.to_nat maxsplit)) s.

(** [sep.join(parts)] *)
Fixpoint join (sep : string) (parts : list string) : string :=
  match parts with
  | [] => EmptyString
  | [p] => p
  | p :: rest => (p ++ sep ++ join sep rest)%string
  end.

End Str.

(** ** Values, exceptions and dictionaries *)

#[local] Unset Elimination Schemes.

Inductive value : Type :=
| VNone
| VInt (z : Z)
| VStr (s : string)
| VDict (items : list (string * value)).

#[local] Set Elimination Schemes.

Inductive exn : Type :=
| TypeError
| ValueError
| KeyError
| IndexError
| AttributeError
| OSError
| TomlDecodeError.

Inductive result (A : Type) : Type :=
| Ok (a : A)
| Raise (e : exn).

Arguments Ok {A} a.
Arguments Raise {A} e.

Definition rbind {A B} (r : result A) (f : A -> result B) : result B :=
  match r with
  | Ok a => f a
  | Raise e => Raise e
  end.

Declare Scope result_scope.
Delimit Scope result_scope with result.
Notation "x <- r ;; k" := (rbind r (fun x => k))
  (at level 61, r at next level, right associativity) : result_scope.

(** [isinstance(v, Mapping)] *)
Definition is_mapping (v : value) : bool :=
  match v with
  | VDict _ => true
  | _ => false
  end.

(** Truth value of an object: [None], [0], [''] and [{}] are false. *)
Definition truthy (v : value) : bool :=
  match v with
  | VNone => false
  | VInt z => negb (z =? 0)%Z
  | VStr s => negb (s =? "")
  | VDict items => negb (Nat.eqb (List.length items) 0)
  end.

Module Dict.

Definition t : Type := list (string * value).

Definition keys (d : t) : list string := List.map fst d.

(** [d.get(k)] on the items of a dictionary *)
Fixpoint get (k : string) (d : t) : option value :=
  match d with
  | [] => None
  | (k', v) :: rest => if k =? k' then Some v else get k rest
  end.

(** [d[k] = v]: an existing key keeps its place, a new one goes last. *)
Fixpoint set (k : string) (v : value) (d : t) : t :=
  match d with
  | [] => [(k, v)]
  | (k', v') :: rest =>
      if k =? k' then (k', v) :: rest else (k', v') :: set k v rest
  end.

(** [d.update(other)] for a mapping [other] *)
Fixpoint update_items (d other : t) : t :=
  match other with
  | [] => d
  | (k, v) :: rest => update_items (set k v d) rest
  end.

End Dict.

(** [d[k]] *)
Definition getitem (d : value) (k : string) : result value :=
  match d with
  | VDict items =>
      match Dict.get k items with
      | Some v => Ok v
      | None => Raise KeyError
      end
  | _ => Raise TypeError
  end.

(** [d[k] = v] *)
Definition setitem (d : value) (k : string) (v : value) : result value :=
  match d with
  | VDict items => Ok (VDict (Dict.set k v items))
  | _ => Raise TypeError
  end.

(** [d.get(k, default)] *)
Definition get_default (d : value) (k : string) (default : value) : result value :=
  match d with
  | VDict items =>
      match Dict.get k items with
      | Some v => Ok v
      | None => Ok default
      end
  | _ => Raise AttributeError
  end.

(** [d.update(other)] for a dictionary [d].  A mapping contributes its
    items.  Any other object is read as a sequence of pairs: the empty
    string is an empty sequence, the first element of a non-empty string is
    a string of length one and is refused, [None] and integers cannot be
    iterated. *)
Definition dict_update (d : Dict.t) (other : value) : result Dict.t :=
  match other with
  | VDict items => Ok (Dict.update_items d items)
  | VStr EmptyString => Ok d
  | VStr (String _ _) => Raise ValueError
  | VNone | VInt _ => Raise TypeError
  end.

(** ** The nested merge *)

(** [update_nested(d, u)].  The dictionary [d] is updated in place and
    returned; here the updated dictionary is the result.  The objects [d]
    and [u] are distinct. *)
Fixpoint update_nested (d u : value) {struct u} : result value :=
  match u with
  | VDict items =>
      (fix loop (items : list (string * value)) (d : value) {struct items}
         : result value :=
         match items with
         | [] => Ok d
         | (k, v) :: rest =>
             if is_mapping v then
               (d0 <- get_default d k (VDict []) ;;
                r <- update_nested d0 v ;;
                d' <- setitem d k r ;;
                loop rest d')%result
             else
               (d' <- setitem d k v ;;
                loop rest d')%result
         end) items d
  | _ => Raise AttributeError
  end.

(** ** Filter specifications *)

#[local] Unset Elimination Schemes.

(** What [subtree] accepts as [filters]: [None], a string, a mapping from
    keys to filters, a collection of filters.  [FInt] stands for an object
    of any other type. *)
Inductive filter : Type :=
| FNone
| FInt (z : Z)
| FStr (s : string)
| FDict (items : list (string * filter))
| FList (items : list filter).

#[local] Set Elimination Schemes.

Definition filter_truthy (f : filter) : bool :=
  match f with
  | FNone => false
  | FInt z => negb (z =? 0)%Z
  | FStr s => negb (s =? "")
  | FDict items => negb (Nat.eqb (List.length items) 0)
  | FList items => negb (Nat.eqb (List.length items) 0)
  end.

(** [filters == '*'] *)
Definition is_wildcard (f : filter) : bool :=
  match f with
  | FStr s => s =? "*"
  | _ => false
  end.

(** ** The process: environment, files, objects and observable events *)

Inductive level : Type := INFO | WARNING.

Inductive event : Type :=
| EvEnvironGet (name : string)      (* os.environ.get(name) *)
| EvEnvironScan                     (* iteration over os.environ *)
| EvIsFile (path : string)          (* os.path.isfile(path) *)
| EvOpen (path : string)            (* open(path) and the read of its text *)
| EvLog (lvl : level) (msg : string)
| EvLogException (e : exn).

(** What the program reads and never changes: the environment, in its
    iteration order, the file system, and the TOML library, which is not
    part of the program ([toml_load path] is the outcome of
    [with open(path) as f: toml.load(f)]). *)
Record world : Type := {
  os_environ : list (string * string);
  os_path_isfile : string -> bool;
  toml_load : string -> result value;
  toml_loads : string -> result value
}.

Definition loc : Type := nat.

(** The state: the world, the objects that have an identity (an object is
    its address in [heap]) and the events so far. *)
Record state : Type := {
  env : world;
  heap : list value;
  trace : list event
}.

Definition M (A : Type) : Type := state -> result A * state.

Definition ret {A} (a : A) : M A := fun st => (Ok a, st).

Definition raise {A} (e : exn) : M A := fun st => (Raise e, st).

Definition bind {A B} (m : M A) (f : A -> M B) : M B :=
  fun st =>
    match m st with
    | (Ok a, st') => f a st'
    | (Raise e, st') => (Raise e, st')
    end.

Declare Scope monad_scope.
Delimit Scope monad_scope with monad.
Notation "x <- m ;; k" := (bind m (fun x => k))
  (at level 61, m at next level, right associativity) : monad_scope.
Notation "m ;; k" := (bind m (fun _ => k))
  (at level 61, right associativity) : monad_scope.
Open Scope monad_scope.

Definition lift {A} (r : result A) : M A := fun st => (r, st).

Definition emit (e : event) : M unit :=
  fun st => (Ok tt, {| env := env st; heap := heap st; trace := trace st ++ [e] |}).

Definition ask : M world := fun st => (Ok (env st), st).

(** A new object holding [v]; its address is the next free one. *)
Definition alloc (v : value) : M loc :=
  fun st =>
    (Ok (List.length (heap st)),
     {| env := env st; heap := heap st ++ [v]; trace := trace st |}).

Definition deref (l : loc) : M value :=
  fun st => (Ok (nth l (heap st) VNone), st).

Fixpoint replace_nth (l : nat) (v : value) (h : list value) : list value :=
  match h, l with
  | [], _ => []
  | _ :: rest, O => v :: rest
  | x :: rest, S l' => x :: replace_nth l' v rest
  end.

Definition assign (l : loc) (v : value) : M unit :=
  fun st =>
    (Ok tt, {| env := env st; heap := replace_nth l v (heap st); trace := trace st |}).

(** [copy.deepcopy]: a tree is copied whole and the copy is a new object.
    For a string, an integer or [None] Python returns the object itself;
    these have no address of their own here, and what is said of the
    identity of a copy is said of dictionaries only. *)
Definition deepcopy (v : value) : M loc := alloc v.

(** [update_nested(d, u)] on the object [d].  When the merge raises, the
    exception leaves the construction and the object is not looked at
    again: its state is then left as it was. *)
Definition update_nested_at (d : loc) (u : value) : M unit :=
  old <- deref d ;;
  new <- lift (update_nested old u) ;;
  assign d new.

(** [d.update(other)] on the objects [d] and [other] *)
Definition dict_update_at (d other : loc) : M unit :=
  old <- deref d ;;
  o <- deref other ;;
  match old with
  | VDict items =>
      new <- lift (dict_update items o) ;;
      assign d (VDict new)
  | _ => raise AttributeError
  end.

(** ** The subtree filter *)

(** The branch of [subtree] for a string: [deepcopy(data[key])], and on
    [KeyError] a warning and an empty dictionary. *)
Definition subtree_str (data : loc) (key : string) (parent_hierarchy : list string)
  : M loc :=
  d <- deref data ;;
  match getitem d key with
  | Ok v => deepcopy v
  | Raise KeyError =>
      let parent_str := Str.join "." parent_hierarchy in
      emit (EvLog WARNING
              ("Section " ++ parent_str ++ "." ++ key ++ " not found in data")%string) ;;
      alloc (VDict [])
  | Raise e => raise e
  end.

(** [subtree(data, key, parent_hierarchy)] for a string [key]: the call
    that the mapping branch makes on each of its keys. *)
Definition subtree_key (data : loc) (key : string) (parent_hierarchy : list string)
  : M loc :=
  if negb (filter_truthy (FStr key)) || is_wildcard (FStr key) then ret data
  else subtree_str data key parent_hierarchy.

(** [subtree(data, filters, parent_hierarchy)] *)
Fixpoint subtree (data : loc) (filters : filter) (parent_hierarchy : list string)
  {struct filters} : M loc :=
  if negb (filter_truthy filters) || is_wildcard filters then ret data
  else
    match filters with
    | FStr key => subtree_str data key parent_hierarchy
    | FDict items =>
        new_data <- alloc (VDict []) ;;
        (fix loop (items : list (string * filter)) : M loc :=
           match items with
           | [] => ret new_data
           | (k, v) :: rest =>
               subdata_root <- subtree_key data k [] ;;
               subdata <- subtree subdata_root v (parent_hierarchy ++ [k]) ;;
               dict_update_at new_data subdata ;;
               loop rest
           end) items
    | FList items =>
        new_data <- alloc (VDict []) ;;
        (fix loop (items : list filter) : M loc :=
           match items with
           | [] => ret new_data
           | f :: rest =>
               r <- subtree data f parent_hierarchy ;;
               dict_update_at new_data r ;;
               loop rest
           end) items
    | _ => raise TypeError
    end.

(** ** The decomposition of environment variables *)

(** [build_env_var] on the list of its positional arguments [parts] *)
Definition build_env_var (parts : list string) (split_char : string) : string :=
  Str.join "_" (List.map (fun p => Str.upper (Str.strip_chars split_char p)) parts).

(** The dictionary [update] that [parse_env_vars] builds from the keys of
    one variable: one level for each key but the last, which holds the
    value.  [nested_keys[-1]] does not exist for an empty list. *)
Fixpoint single_branch (nested_keys : list string) (val : string) : result value :=
  match nested_keys with
  | [] => Raise IndexError
  | [k] => Ok (VDict [(k, VStr val)])
  | k :: rest =>
      (u <- single_branch rest val ;;
       Ok (VDict [(k, u)]))%result
  end.

Definition is_nil {A} (l : list A) : bool :=
  match l with
  | [] => true
  | _ => false
  end.

(** The body of the loop [for env_var in os.environ] of [parse_env_vars],
    over the variables still to visit; [env_prefix] and [split_char] are
    the normalised ones. *)
Fixpoint parse_env_vars_loop (exclude_set : list string) (env_prefix : string)
  (split_char : ascii) (max_depth : Z) (vars : list (string * string))
  (settings_map : value) {struct vars} : M value :=
  match vars with
  | [] => ret settings_map
  | (env_var, val) :: rest =>
      let env_var_lower := Str.lower env_var in
      if existsb (String.eqb env_var_lower) exclude_set
         || negb (Str.startswith env_var_lower env_prefix)
      then parse_env_vars_loop exclude_set env_prefix split_char max_depth rest settings_map
      else
        let nested_keys :=
          Str.split split_char max_depth
            (Str.drop (String.length env_prefix) env_var_lower) in
        if is_nil nested_keys
        then parse_env_vars_loop exclude_set env_prefix split_char max_depth rest settings_map
        else
          update <- lift (single_branch nested_keys val) ;;
          emit (EvLog INFO ("Getting settings from env var: " ++ env_var)%string) ;;
          settings_map' <- lift (update_nested settings_map update) ;;
          parse_env_vars_loop exclude_set env_prefix split_char max_depth rest settings_map'
  end.

(** [parse_env_vars(env_prefix, max_depth, split_char, exclude)].  The
    first [match] is the test [len(split_char) != 1]; past it,
    [split_char] is the one character [c]. *)
Definition parse_env_vars (env_prefix : string) (max_depth : Z) (split_char : string)
  (exclude : list string) : M value :=
  let exclude_set := List.map Str.lower exclude in
  let settings_map := VDict [] in
  match split_char with
  | String c EmptyString =>
      let split_char := Str.lower_char c in
      let env_prefix :=
        (Str.rstrip_chars (String split_char EmptyString) (Str.lower env_prefix)
         ++ String split_char EmptyString)%string in
      if (String.length env_prefix <=? 1)%nat then ret settings_map
      else
        w <- ask ;;
        emit EvEnvironScan ;;
        parse_env_vars_loop exclude_set env_prefix split_char max_depth
          (os_environ w) settings_map
  | _ => raise ValueError
  end.

(** ** The Settings object *)

(** What a caller can pass as [parser]: an object that cannot be called,
    or a function of one argument. *)
Inductive pyobj : Type :=
| PyVal (v : value)
| PyFun (f : value -> result value).

Definition callable (o : pyobj) : bool :=
  match o with
  | PyFun _ => true
  | PyVal _ => false
  end.

Definition pyobj_truthy (o : pyobj) : bool :=
  match o with
  | PyFun _ => true
  | PyVal v => truthy v
  end.

(** [os.environ.get(name)] *)
Definition environ_get (name : string) : M (option string) :=
  w <- ask ;;
  emit (EvEnvironGet name) ;;
  ret (option_map snd (List.find (fun kv => fst kv =? name) (os_environ w))).

(** Modelled from the spec: the decorator [logtools.log_exception], whose
    module is not among the sources.  The spec counts logging and exception
    wrapping among the thin collaborators and lets every failure propagate:
    the decorator hands the exception to the logger and raises it again. *)
Definition log_exception {A} (m : M A) : M A :=
  fun st =>
    match m st with
    | (Raise e, st') =>
        (Raise e,
         {| env := env st'; heap := heap st'; trace := trace st' ++ [EvLogException e] |})
    | r => r
    end.

Module Settings.

Record t : Type := {
  _parse : pyobj;
  filters : filter;
  env_prefix : string;
  settings_file_env_suffix : string;
  settings_file_env_var : string;
  settings_file : option string;
  _data : option loc
}.

Definition str_truthy (s : option string) : bool :=
  match s with
  | Some (String _ _) => true
  | _ => false
  end.

(** [Settings._read_file]: the last case is the end of the function
    body, reached when the first [if] holds and neither branch under it
    returns. *)
Definition _read_file (self : t) : M value :=
  match settings_file self with
  | Some (String c s) =>
      let settings_file := String c s in
      w <- ask ;;
      emit (EvIsFile settings_file) ;;
      if os_path_isfile w settings_file then
        emit (EvOpen settings_file) ;;
        lift (toml_load w settings_file)
      else if Str.startswith (Str.lstrip settings_file) "[" then
        lift (toml_loads w settings_file)
      else ret VNone
  | _ => ret (VDict [])
  end.

Definition read_file (self : t) : M value := _read_file self.

Definition parse_env_vars (self : t) : M value :=
  parse_env_vars (env_prefix self) 1 "_" [settings_file_env_var self].

Definition subtree (self : t) (data : loc) : M loc :=
  subtree data (filters self) ["settings"].

Definition parse (self : t) (data : loc) : M loc :=
  if pyobj_truthy (_parse self) then
    match _parse self with
    | PyFun f =>
        d <- deref data ;;
        r <- lift (f d) ;;
        alloc r
    | PyVal _ => raise TypeError
    end
  else ret data.

(** The first three lines of [build_settings_map]: the map of the
    environment, then the map of the file, merged into a new
    dictionary. *)
Definition merge_sources (self : t) : M loc :=
  settings_map <- alloc (VDict []) ;;
  e <- parse_env_vars self ;;
  update_nested_at settings_map e ;;
  f <- read_file self ;;
  update_nested_at settings_map f ;;
  ret settings_map.

Definition build_settings_map (self : t) : M loc :=
  settings_map <- merge_sources self ;;
  settings_map <- subtree self settings_map ;;
  parse self settings_map.

(** The body of [Settings.__init__] *)
Definition init_body (settings_file : option string) (env_prefix : string)
  (settings_file_env_suffix : string) (filters : filter) (parser : pyobj) : M t :=
  if pyobj_truthy parser && negb (callable parser) then raise TypeError
  else
    let env_prefix := build_env_var [env_prefix] "_" in
    let settings_file_env_var :=
      build_env_var [env_prefix; settings_file_env_suffix] "_" in
    settings_file <- (if str_truthy settings_file then ret settings_file
                      else environ_get settings_file_env_var) ;;
    let self := {| _parse := parser;
                   filters := filters;
                   env_prefix := env_prefix;
                   settings_file_env_suffix := settings_file_env_suffix;
                   settings_file_env_var := settings_file_env_var;
                   settings_file := settings_file;
                   _data := None |} in
    data <- build_settings_map self ;;
    ret {| _parse := parser;
           filters := filters;
           env_prefix := env_prefix;
           settings_file_env_suffix := settings_file_env_suffix;
           settings_file_env_var := settings_file_env_var;
           settings_file := settings_file;
           _data := Some data |}.

(** [Settings(settings_file, env_prefix, settings_file_env_suffix,
    filters, parser)] *)
Definition init (settings_file : option string) (env_prefix : string)
  (settings_file_env_suffix : string) (filters : filter) (parser : pyobj) : M t :=
  log_exception
    (init_body settings_file env_prefix settings_file_env_suffix filters parser).

(** The dictionary behind the mapping view of a constructed object *)
Definition data (self : t) (st : state) : value :=
  match _data self with
  | Some l => nth l (heap st) VNone
  | None => VNone
  end.

(** [len(obj)] for the objects of the model *)
Definition py_len (v : value) : result nat :=
  match v with
  | VDict items => Ok (List.length items)
  | VStr s => Ok (String.length s)
  | VNone | VInt _ => Raise TypeError
  end.

(** [list(iter(obj))]: the keys of a dictionary, the characters of a
    string. *)
Definition py_iter (v : value) : result (list string) :=
  match v with
  | VDict items => Ok (Dict.keys items)
  | VStr s => Ok (List.map (fun c => String c EmptyString) (list_ascii_of_string s))
  | VNone | VInt _ => Raise TypeError
  end.

(** [Settings.__len__] *)
Definition __len__ (self : t) (st : state) : result nat :=
  py_len (data self st).

(** [Settings.__getitem__] *)
Definition __getitem__ (self : t) (key : string) (st : state) : result value :=
  getitem (data self st) key.

(** [Settings.__iter__], as the list of what it yields *)
Definition __iter__ (self : t) (st : state) : result (list string) :=
  py_iter (data self st).

End Settings.

(** ** Notions used to state the properties *)

(** A dictionary has each key once, at every level. *)
Fixpoint nodup_keys (ks : list string) : bool :=
  match ks with
  | [] => true
  | k :: rest => negb (existsb (String.eqb k) rest) && nodup_keys rest
  end.

Fixpoint wf (v : value) : bool :=
  match v with
  | VDict items =>
      nodup_keys (Dict.keys items) && forallb (fun kv => wf (snd kv)) items
  | _ => true
  end.

(** The value found by following the keys of [path] from [v]. *)
Fixpoint lookup_path (path : list string) (v : value) : option value :=
  match path with
  | [] => Some v
  | k :: rest =>
      match v with
      | VDict items =>
          match Dict.get k items with
          | Some v' => lookup_path rest v'
          | None => None
          end
      | _ => None
      end
  end.

(** [u] leaves [path] untouched: following the keys of [path] in [u]
    meets a dictionary that lacks the next key, or ends on an empty
    dictionary.  Merging [u] then changes nothing at [path]. *)
Fixpoint untouched (path : list string) (u : value) : bool :=
  match path with
  | [] =>
      match u with
      | VDict items => is_nil items
      | _ => false
      end
  | k :: rest =>
      match u with
      | VDict items =>
          match Dict.get k items with
          | Some v => untouched rest v
          | None => true
          end
      | _ => false
      end
  end.

(** [a == b]: dictionaries are equal when they have the same keys with
    equal values, in whatever order. *)
Fixpoint py_eq (a b : value) {struct a} : bool :=
  match a, b with
  | VNone, VNone => true
  | VInt x, VInt y => (x =? y)%Z
  | VStr s, VStr s' => s =? s'
  | VDict items, VDict items' =>
      Nat.eqb (List.length items) (List.length items')
      && forallb (fun kv =>
                    match Dict.get (fst kv) items' with
                    | Some v' => py_eq (snd kv) v'
                    | None => false
                    end) items
  | _, _ => false
  end.

(** No scalar of [d] sits where [u] has a non-empty dictionary, at any
    depth: the condition under which [update_nested d u] meets no object
    that it cannot update. *)
Fixpoint mergeable (d u : value) {struct u} : bool :=
  match u with
  | VDict [] => true
  | VDict items =>
      match d with
      | VDict ditems =>
          forallb (fun kv =>
                     match snd kv with
                     | VDict _ =>
                         match Dict.get (fst kv) ditems with
                         | Some d0 => mergeable d0 (snd kv)
                         | None => true
                         end
                     | _ => true
                     end) items
      | _ => false
      end
  | _ => false
  end.

(** A process with an empty environment and no file. *)
Definition bare_world : world := {|
  os_environ := [];
  os_path_isfile := fun _ => false;
  toml_load := fun _ => Raise OSError;
  toml_loads := fun _ => Raise TomlDecodeError
|}.

Definition with_environ (vars : list (string * string)) : world := {|
  os_environ := vars;
  os_path_isfile := fun _ => false;
  toml_load := fun _ => Raise OSError;
  toml_loads := fun _ => Raise TomlDecodeError
|}.

Definition initial (w : world) : state := {| env := w; heap := []; trace := [] |}.

(** The outcome of [subtree(data, filters, parent_hierarchy)] for a
    dictionary [data] that is the only object so far: the value of the
    object returned, and the events. *)
Definition subtree_value (data : value) (filters : filter)
  (parent_hierarchy : list string) : result value * list event :=
  match subtree 0 filters parent_hierarchy
          {| env := bare_world; heap := [data]; trace := [] |} with
  | (Ok l, st) => (Ok (nth l (heap st) VNone), trace st)
  | (Raise e, st) => (Raise e, trace st)
  end.

(** The outcome of a construction, and the dictionary behind the object
    when there is one. *)
Definition constructed (r : result Settings.t * state) : result value :=
  match fst r with
  | Ok self => Ok (Settings.data self (snd r))
  | Raise e => Raise e
  end.

(** ** Definitions used in the proofs *)

(** The loop of [update_nested] over the items of [u]. *)
Definition update_loop : list (string * value) -> value -> result value :=
  fix loop (items : list (string * value)) (d : value) {struct items}
    : result value :=
    match items with
    | [] => Ok d
    | (k, v) :: rest =>
        if is_mapping v then
          (d0 <- get_default d k (VDict []) ;;
           r <- update_nested d0 v ;;
           d' <- setitem d k r ;;
           loop rest d')%result
        else
          (d' <- setitem d k v ;;
           loop rest d')%result
    end.

(** One step of the loop, as the caller sees it: the entry written at [k]. *)
Definition merged_entry (d : value) (k : string) (v : value) : result value :=
  if is_mapping v then
    (d0 <- get_default d k (VDict []) ;; update_nested d0 v)%result
  else Ok v.

(** What [mergeable] asks of each item of [u], for the items [dd] of [d]. *)
Definition entry_mergeable (dd : Dict.t) (kv : string * value) : bool :=
  match snd kv with
  | VDict _ =>
      match Dict.get (fst kv) dd with
      | Some d0 => mergeable d0 (snd kv)
      | None => true
      end
  | _ => true
  end.

(** [m] reads the world only: its outcome depends on nothing else, and it
    changes neither the world nor the objects. *)
Definition reads_world {A} (m : M A) : Prop :=
  (forall st st', env st = env st' -> fst (m st) = fst (m st')) /\
  (forall st, env (snd (m st)) = env st /\ heap (snd (m st)) = heap st).

(** A process whose environment sets [a.b] and [a.c] and whose settings
    are given inline; the TOML library reads them as a table [a] with a
    key [b]. *)
Definition inline_world : world := {|
  os_environ := [("APP_SETTINGS_A_B", "from_env"); ("APP_SETTINGS_A_C", "only_env")];
  os_path_isfile := fun _ => false;
  toml_load := fun _ => Raise OSError;
  toml_loads := fun _ => Ok (VDict [("a", VDict [("b", VStr "from_file")])])
|}.

Definition inline_settings : Settings.t := {|
  Settings._parse := PyVal VNone;
  Settings.filters := FNone;
  Settings.env_prefix := "APP_SETTINGS";
  Settings.settings_file_env_suffix := "SETTINGS_FILE";
  Settings.settings_file_env_var := "APP_SETTINGS_SETTINGS_FILE";
  Settings.settings_file := Some "[a]";
  Settings._data := None
|}.

(** Induction on values, with the hypothesis on every value of a
    dictionary. *)
Section ValueInd.

Variable P : value -> Prop.
Hypothesis HNone : P VNone.
Hypothesis HInt : forall z, P (VInt z).
Hypothesis HStr : forall s, P (VStr s).
Hypothesis HDict :
  forall items, Forall (fun kv => P (snd kv)) items -> P (VDict items).

Fixpoint value_ind (v : value) : P v :=
  match v with
  | VNone => HNone
  | VInt z => HInt z
  | VStr s => HStr s
  | VDict items =>
      HDict ((fix all (l : list (string * value)) : Forall (fun kv => P (snd kv)) l :=
                match l with
                | [] => Forall_nil _
                | kv :: rest => Forall_cons kv (value_ind (snd kv)) (all rest)
                end) items)
  end.

End ValueInd.

(** ** Notions used to state further properties *)

(** The nesting depth of a value: a scalar has depth 0, a dictionary one
    more than the deepest of its values. *)
Fixpoint depth (v : value) : nat :=
  match v with
  | VDict items => S (fold_right (fun kv acc => Nat.max (depth (snd kv)) acc) 0 items)
  | _ => 0
  end.

(** A nested map as the environment gives it: every key is in lower case
    and every leaf is a string. *)
Fixpoint env_shaped (v : value) : bool :=
  match v with
  | VStr _ => true
  | VDict items =>
      forallb (fun kv => (Str.lower (fst kv) =? fst kv) && env_shaped (snd kv)) items
  | _ => false
  end.

(** The prefix that [parse_env_vars] looks for, from its arguments
    [env_prefix] and the one character of [split_char]. *)
Definition normal_prefix (env_prefix : string) (c : ascii) : string :=
  (Str.rstrip_chars (String (Str.lower_char c) EmptyString) (Str.lower env_prefix)
   ++ String (Str.lower_char c) EmptyString)%string.

(** The variables that the loop of [parse_env_vars] does not pass over:
    those whose name, in lower case, starts with the prefix and is not
    excluded. *)
Definition considered (env_prefix : string) (c : ascii) (exclude : list string)
  (name : string) : bool :=
  negb (existsb (String.eqb (Str.lower name)) (List.map Str.lower exclude))
  && Str.startswith (Str.lower name) (normal_prefix env_prefix c).


(** The same process with another environment. *)
Definition set_environ (vars : list (string * string)) (st : state) : state :=
  {| env := {| os_environ := vars;
               os_path_isfile := os_path_isfile (env st);
               toml_load := toml_load (env st);
               toml_loads := toml_loads (env st) |};
     heap := heap st;
     trace := trace st |}.

(** The characters and the strings of ASCII, on which [str.lower] and
    [str.upper] are the letter-by-letter maps of the model. *)
Definition ascii_char (c : ascii) : bool := (nat_of_ascii c <? 128)%nat.

Fixpoint ascii_string (s : string) : bool :=
  match s with
  | EmptyString => true
  | String c rest => ascii_char c && ascii_string rest
  end.

(** [n] copies of the character [c]. *)
Fixpoint repeat_char (c : ascii) (n : nat) : string :=
  match n with
  | O => EmptyString
  | S n' => String c (repeat_char c n')
  end.

(** The loop of the collection branch of [subtree], over the filters
    still to apply. *)
Definition subtree_list_loop (data : loc) (parent_hierarchy : list string)
  (new_data : loc) : list filter -> M loc :=
  fix loop (items : list filter) : M loc :=
    match items with
    | [] => ret new_data
    | f :: rest =>
        r <- subtree data f parent_hierarchy ;;
        dict_update_at new_data r ;;
        loop rest
    end.

(** The loop of the mapping branch of [subtree]. *)
Definition subtree_dict_loop (data : loc) (parent_hierarchy : list string)
  (new_data : loc) : list (string * filter) -> M loc :=
  fix loop (items : list (string * filter)) : M loc :=
    match items with
    | [] => ret new_data
    | (k, v) :: rest =>
        subdata_root <- subtree_key data k [] ;;
        subdata <- subtree subdata_root v (parent_hierarchy ++ [k]) ;;
        dict_update_at new_data subdata ;;
        loop rest
    end.

(** The items that the collection filter [keys] collects from the items
    [d] of [data]: a new dictionary updated with [data[k]] for each key in
    turn. *)
Definition collected (d : Dict.t) (keys : list string) : Dict.t :=
  fold_left
    (fun acc k =>
       match Dict.get k d with
       | Some (VDict dk) => Dict.update_items acc dk
       | _ => acc
       end) keys [].

(** [m] keeps the first [n] objects: run in a state that has them, it
    leaves the world and these objects as they are, and removes no
    object. *)
Definition keeps (n : nat) {A} (m : M A) : Prop :=
  forall st,
    n <= List.length (heap st) ->
    env (snd (m st)) = env st /\
    firstn n (heap (snd (m st))) = firstn n (heap st) /\
    List.length (heap st) <= List.length (heap (snd (m st))).

(** Induction on filters, with the hypothesis on every filter of a mapping
    and of a collection. *)
Section FilterInd.

Variable P : filter -> Prop.
Hypothesis HNone : P FNone.
Hypothesis HInt : forall z, P (FInt z).
Hypothesis HStr : forall s, P (FStr s).
Hypothesis HDict :
  forall items, Forall (fun kv => P (snd kv)) items -> P (FDict items).
Hypothesis HList : forall items, Forall P items -> P (FList items).

Fixpoint filter_ind (f : filter) : P f :=
  match f with
  | FNone => HNone
  | FInt z => HInt z
  | FStr s => HStr s
  | FDict items =>
      HDict ((fix all (l : list (string * filter)) : Forall (fun kv => P (snd kv)) l :=
                match l with
                | [] => Forall_nil _
                | kv :: rest => Forall_cons kv (filter_ind (snd kv)) (all rest)
                end) items)
  | FList items =>
      HList ((fix all (l : list filter) : Forall P l :=
                match l with
                | [] => Forall_nil _
                | f' :: rest => Forall_cons f' (filter_ind f') (all rest)
                end) items)
  end.

End FilterInd.

(** * Properties *)

(** ** Dictionaries *)

Lemma get_set_same (k : string) (v : value) (d : Dict.t) :
  Dict.get k (Dict.set k v d) = Some v.
Proof.
  induction d as [|[k' v'] rest IH]; simpl.
  - now rewrite String.eqb_refl.
  - destruct (k =? k') eqn:E; simpl; rewrite E; auto.
Qed.

Lemma get_set_other (k k' : string) (v : value) (d : Dict.t) :
  k <> k' -> Dict.get k' (Dict.set k v d) = Dict.get k' d.
Proof.
  intros Hne. induction d as [|[k0 v0] rest IH]; simpl.
  - apply String.eqb_neq in Hne. rewrite String.eqb_sym in Hne. now rewrite Hne.
  - destruct (k =? k0) eqn:E; simpl.
    + apply String.eqb_eq in E. subst k0.
      destruct (k' =? k) eqn:E'; auto.
      apply String.eqb_eq in E'. congruence.
    + now rewrite IH.
Qed.

(** ** The nested merge *)

Lemma update_nested_dict (d : value) (items : list (string * value)) :
  update_nested d (VDict items) = update_loop items d.
Proof. reflexivity. Qed.

Lemma update_loop_cons (k : string) (v : value) rest (d : value) :
  update_loop ((k, v) :: rest) d =
  if is_mapping v then
    (d0 <- get_default d k (VDict []) ;;
     r <- update_nested d0 v ;;
     d' <- setitem d k r ;;
     update_loop rest d')%result
  else
    (d' <- setitem d k v ;;
     update_loop rest d')%result.
Proof. reflexivity. Qed.

Lemma update_loop_step (k : string) (v : value) rest (d : value) :
  update_loop ((k, v) :: rest) d =
  (r <- merged_entry d k v ;; d' <- setitem d k r ;; update_loop rest d')%result.
Proof.
  rewrite update_loop_cons. unfold merged_entry.
  destruct (is_mapping v); simpl; auto.
  destruct (get_default d k (VDict [])); simpl; auto.
Qed.

(** The loop leaves alone the keys that are not among the items. *)
Lemma update_loop_other (items : list (string * value)) :
  forall d m k,
    update_loop items (VDict d) = Ok m ->
    existsb (String.eqb k) (Dict.keys items) = false ->
    exists m', m = VDict m' /\ Dict.get k m' = Dict.get k d.
Proof.
  induction items as [|[k0 v0] rest IH]; intros d m k Hm Hk.
  - simpl in Hm. inversion Hm. eauto.
  - rewrite update_loop_step in Hm. simpl in Hk.
    apply orb_false_iff in Hk. destruct Hk as [Hk0 Hk].
    destruct (merged_entry (VDict d) k0 v0) as [r|e]; simpl in Hm; [|discriminate].
    destruct (IH _ _ _ Hm Hk) as [m' [-> Hget]].
    exists m'. split; auto. rewrite Hget.
    apply get_set_other. intros ->. now rewrite String.eqb_refl in Hk0.
Qed.

(** After the loop, each key of the items holds the entry that its step
    wrote, computed from the dictionary as it was before the loop. *)
Lemma update_loop_entry (items : list (string * value)) :
  forall d m k v,
    nodup_keys (Dict.keys items) = true ->
    update_loop items (VDict d) = Ok m ->
    Dict.get k items = Some v ->
    exists m' r,
      m = VDict m' /\ merged_entry (VDict d) k v = Ok r /\ Dict.get k m' = Some r.
Proof.
  induction items as [|[k0 v0] rest IH]; intros d m k v Hnd Hm Hk.
  - discriminate.
  - rewrite update_loop_step in Hm. simpl in Hnd, Hk.
    apply andb_true_iff in Hnd. destruct Hnd as [Hk0 Hnd].
    apply negb_true_iff in Hk0.
    destruct (merged_entry (VDict d) k0 v0) as [r|e] eqn:Hr; simpl in Hm; [|discriminate].
    destruct (k =? k0) eqn:E.
    + apply String.eqb_eq in E. subst k0. inversion Hk; subst v0.
      destruct (update_loop_other _ _ _ Hm Hk0) as [m' [-> Hget]].
      exists m', r. repeat split; auto.
      rewrite Hget. apply get_set_same.
    + destruct (IH _ _ _ _ Hnd Hm Hk) as [m' [r' [-> [Hr' Hget]]]].
      exists m', r'. repeat split; auto.
      rewrite <- Hr'. unfold merged_entry.
      destruct (is_mapping v); auto. simpl.
      rewrite get_set_other; auto.
      intros ->. now rewrite String.eqb_refl in E.
Qed.

Lemma get_in (k : string) (v : value) (d : Dict.t) :
  Dict.get k d = Some v -> In (k, v) d.
Proof.
  induction d as [|[k' v'] rest IH]; simpl; [discriminate|].
  destruct (k =? k') eqn:E.
  - apply String.eqb_eq in E. intros H. inversion H. subst. now left.
  - intros H. right. auto.
Qed.

Lemma update_loop_dest (items : list (string * value)) (d m : value) :
  items <> [] -> update_loop items d = Ok m -> exists dd, d = VDict dd.
Proof.
  destruct items as [|[k v] rest]; [congruence|]. intros _.
  rewrite update_loop_step.
  destruct (merged_entry d k v); simpl; [|discriminate].
  destruct d; simpl; try discriminate. eauto.
Qed.

(** A leaf of [u] is, after the merge, a leaf of the result at the same
    path. *)
Lemma update_nested_leaf (u : value) :
  wf u = true ->
  forall d m path x,
    update_nested d u = Ok m ->
    lookup_path path u = Some x ->
    is_mapping x = false ->
    lookup_path path m = Some x.
Proof.
  induction u as [| z | s | items IH] using value_ind;
    intros Hwf d m path x Hm Hp Hx; try discriminate.
  destruct path as [|k path]; simpl in Hp.
  - inversion Hp. subst x. discriminate.
  - destruct (Dict.get k items) as [v|] eqn:Hk; [|discriminate].
    rewrite update_nested_dict in Hm.
    simpl in Hwf. apply andb_true_iff in Hwf. destruct Hwf as [Hnd Hall].
    destruct (update_loop_dest (items := items) d) with (m := m) as [dd ->]; auto.
    { intros ->. discriminate. }
    destruct (update_loop_entry _ _ _ Hnd Hm Hk) as [m' [r [-> [Hr Hget]]]].
    simpl. rewrite Hget.
    pose proof (get_in _ _ Hk) as Hin.
    unfold merged_entry in Hr. destruct (is_mapping v) eqn:Hv.
    + destruct (get_default (VDict dd) k (VDict [])) as [d0|]; simpl in Hr; [|discriminate].
      rewrite Forall_forall in IH. apply (IH _ Hin) with (d := d0); auto.
      rewrite forallb_forall in Hall. apply (Hall _ Hin).
    + inversion Hr. now subst r.
Qed.

Lemma mergeable_empty (items : list (string * value)) :
  mergeable (VDict []) (VDict items) = true.
Proof.
  destruct items as [|kv rest]; auto.
  change (forallb (fun kv : string * value =>
                     match snd kv with
                     | VDict _ =>
                         match Dict.get (fst kv) [] with
                         | Some d0 => mergeable d0 (snd kv)
                         | None => true
                         end
                     | _ => true
                     end) (kv :: rest) = true).
  apply forallb_forall. intros [k v] _. simpl. now destruct v.
Qed.

Lemma mergeable_cons (d : value) (kv : string * value) rest :
  mergeable d (VDict (kv :: rest)) =
  match d with
  | VDict dd => forallb (entry_mergeable dd) (kv :: rest)
  | _ => false
  end.
Proof. reflexivity. Qed.

Lemma update_loop_total (items : list (string * value)) :
  Forall (fun kv =>
            wf (snd kv) = true ->
            forall d, mergeable d (snd kv) = true ->
                      exists m, update_nested d (snd kv) = Ok m) items ->
  nodup_keys (Dict.keys items) = true ->
  forallb (fun kv => wf (snd kv)) items = true ->
  forall dd cur,
    (forall k, existsb (String.eqb k) (Dict.keys items) = true ->
               Dict.get k cur = Dict.get k dd) ->
    forallb (entry_mergeable dd) items = true ->
    exists m, update_loop items (VDict cur) = Ok m.
Proof.
  induction items as [|[k v] rest IHrest]; intros IH Hnd Hwfs dd cur Hagree Hall;
    [simpl; eauto|].
  rewrite update_loop_step.
  inversion IH as [|? ? IHv IHtail]; subst.
  simpl in Hnd, Hwfs, Hall, IHv.
  apply andb_true_iff in Hnd. destruct Hnd as [Hk Hnd]. apply negb_true_iff in Hk.
  apply andb_true_iff in Hwfs. destruct Hwfs as [Hwfv Hwfs].
  apply andb_true_iff in Hall. destruct Hall as [Hv Hall].
  assert (Hentry : exists r, merged_entry (VDict cur) k v = Ok r).
  { unfold merged_entry. destruct (is_mapping v) eqn:Hmap; [|eauto].
    simpl. rewrite Hagree by (simpl; now rewrite String.eqb_refl).
    unfold entry_mergeable in Hv. simpl in Hv.
    destruct v as [| | | vitems]; try discriminate.
    destruct (Dict.get k dd) as [d0|]; simpl.
    - apply IHv; auto.
    - apply IHv; auto. apply mergeable_empty. }
  destruct Hentry as [r ->]. simpl.
  apply IHrest with (dd := dd); auto.
  intros k' Hk'. rewrite get_set_other.
  - apply Hagree. simpl. rewrite Hk'. apply orb_true_r.
  - intros ->. congruence.
Qed.

(** Under [mergeable], the merge meets no error. *)
Lemma update_nested_total (u : value) :
  wf u = true ->
  forall d, mergeable d u = true -> exists m, update_nested d u = Ok m.
Proof.
  induction u as [| z | s | items IH] using value_ind;
    intros Hwf d Hmg; try discriminate.
  rewrite update_nested_dict.
  destruct items as [|kv0 items0]; [simpl; eauto|].
  rewrite mergeable_cons in Hmg.
  destruct d as [| | | dd]; try discriminate.
  simpl in Hwf. apply andb_true_iff in Hwf. destruct Hwf as [Hnd Hwfs].
  apply update_loop_total with (dd := dd); auto.
Qed.

(** ** Dictionaries with each key once *)

Lemma get_none_keys (k : string) (d : Dict.t) :
  Dict.get k d = None -> existsb (String.eqb k) (Dict.keys d) = false.
Proof.
  induction d as [|[k' v'] rest IH]; simpl; auto.
  destruct (k =? k'); [discriminate|auto].
Qed.

Lemma set_absent (k : string) (v : value) (d : Dict.t) :
  Dict.get k d = None -> Dict.set k v d = d ++ [(k, v)].
Proof.
  induction d as [|[k' v'] rest IH]; simpl; auto.
  destruct (k =? k'); [discriminate|]. intros H. now rewrite IH.
Qed.

Lemma keys_set_present (k : string) (v x : value) (d : Dict.t) :
  Dict.get k d = Some x -> Dict.keys (Dict.set k v d) = Dict.keys d.
Proof.
  induction d as [|[k' v'] rest IH]; simpl; [discriminate|].
  destruct (k =? k'); simpl; auto.
  intros H. f_equal. now apply IH.
Qed.

Lemma existsb_app_one (k k' : string) (ks : list string) :
  existsb (String.eqb k) (ks ++ [k']) = existsb (String.eqb k) ks || (k =? k').
Proof. rewrite existsb_app. simpl. now rewrite orb_false_r. Qed.

Lemma nodup_keys_snoc (k : string) (ks : list string) :
  nodup_keys ks = true ->
  existsb (String.eqb k) ks = false ->
  nodup_keys (ks ++ [k]) = true.
Proof.
  induction ks as [|k0 ks IH]; simpl; auto.
  intros Hnd Hk. apply andb_true_iff in Hnd. destruct Hnd as [H0 Hnd].
  apply orb_false_iff in Hk. destruct Hk as [Hk0 Hk].
  rewrite existsb_app_one, IH by auto.
  apply negb_true_iff in H0. rewrite H0. simpl.
  rewrite String.eqb_sym, Hk0. reflexivity.
Qed.

Lemma wf_get (k : string) (x : value) (d : Dict.t) :
  wf (VDict d) = true -> Dict.get k d = Some x -> wf x = true.
Proof.
  simpl. intros H Hk. apply andb_true_iff in H. destruct H as [_ H].
  rewrite forallb_forall in H. apply (H (k, x)). now apply get_in.
Qed.

Lemma wf_set (k : string) (v : value) (d : Dict.t) :
  wf (VDict d) = true -> wf v = true -> wf (VDict (Dict.set k v d)) = true.
Proof.
  simpl. intros H Hv. apply andb_true_iff in H. destruct H as [Hnd Hall].
  apply andb_true_iff. split.
  - destruct (Dict.get k d) as [x|] eqn:Hk.
    + now rewrite (keys_set_present _ v _ Hk).
    + rewrite (set_absent _ v _ Hk). unfold Dict.keys. rewrite map_app. simpl.
      apply nodup_keys_snoc; auto. now apply get_none_keys.
  - clear Hnd. induction d as [|[k' v'] rest IH]; simpl in *.
    + now rewrite Hv.
    + apply andb_true_iff in Hall. destruct Hall as [H1 H2].
      destruct (k =? k'); simpl.
      * now rewrite Hv, H2.
      * now rewrite H1, IH.
Qed.

Lemma get_snoc (k k' : string) (v : value) (d : Dict.t) :
  Dict.get k' (d ++ [(k, v)]) =
  match Dict.get k' d with
  | Some x => Some x
  | None => if k' =? k then Some v else None
  end.
Proof.
  induction d as [|[k0 v0] rest IH]; simpl; auto.
  destruct (k' =? k0); auto.
Qed.

(** The merge of dictionaries with each key once has each key once. *)
Lemma update_nested_wf (u : value) :
  wf u = true ->
  forall d m, wf d = true -> update_nested d u = Ok m -> wf m = true.
Proof.
  induction u as [| z | s | items IH] using value_ind;
    intros Hwf d m Hd Hm; try discriminate.
  rewrite update_nested_dict in Hm.
  simpl in Hwf. apply andb_true_iff in Hwf. destruct Hwf as [_ Hwfs].
  revert d m Hd Hm.
  induction items as [|[k v] rest IHrest]; intros d m Hd Hm.
  - simpl in Hm. inversion Hm. now subst.
  - rewrite update_loop_step in Hm.
    inversion IH as [|? ? IHv IHtail]; subst. simpl in IHv, Hwfs.
    apply andb_true_iff in Hwfs. destruct Hwfs as [Hwfv Hwfs].
    destruct (merged_entry d k v) as [r|] eqn:Hr; simpl in Hm; [|discriminate].
    destruct d as [| | | dd]; simpl in Hm; try discriminate.
    apply (IHrest IHtail Hwfs (VDict (Dict.set k r dd))); auto.
    apply wf_set; auto.
    unfold merged_entry in Hr. destruct (is_mapping v).
    + simpl in Hr. destruct (Dict.get k dd) as [d0|] eqn:Hk; simpl in Hr.
      * apply (IHv Hwfv d0); auto. eapply wf_get; eauto.
      * apply (IHv Hwfv (VDict [])); auto.
    + inversion Hr. now subst.
Qed.

Lemma update_loop_dict (items : list (string * value)) :
  forall d m, update_loop items (VDict d) = Ok m -> exists m', m = VDict m'.
Proof.
  induction items as [|[k v] rest IH]; intros d m Hm.
  - simpl in Hm. inversion Hm. eauto.
  - rewrite update_loop_step in Hm.
    destruct (merged_entry (VDict d) k v); simpl in Hm; [|discriminate].
    eauto.
Qed.

(** Merging a dictionary into an empty one copies it. *)
Lemma update_loop_copy (items : list (string * value)) :
  Forall (fun kv => wf (snd kv) = true ->
                    forall vitems, snd kv = VDict vitems ->
                                   update_nested (VDict []) (snd kv) = Ok (snd kv)) items ->
  nodup_keys (Dict.keys items) = true ->
  forallb (fun kv => wf (snd kv)) items = true ->
  forall acc,
    (forall k, existsb (String.eqb k) (Dict.keys items) = true -> Dict.get k acc = None) ->
    update_loop items (VDict acc) = Ok (VDict (acc ++ items)).
Proof.
  induction items as [|[k v] rest IHrest]; intros IH Hnd Hwfs acc Hfresh.
  - simpl. now rewrite app_nil_r.
  - rewrite update_loop_step.
    inversion IH as [|? ? IHv IHtail]; subst. simpl in IHv, Hnd, Hwfs.
    apply andb_true_iff in Hnd. destruct Hnd as [Hk Hnd]. apply negb_true_iff in Hk.
    apply andb_true_iff in Hwfs. destruct Hwfs as [Hwfv Hwfs].
    assert (Hacc : Dict.get k acc = None).
    { apply Hfresh. simpl. now rewrite String.eqb_refl. }
    assert (Hr : merged_entry (VDict acc) k v = Ok v).
    { unfold merged_entry. destruct v as [| | | vitems]; auto.
      simpl. rewrite Hacc. simpl. apply (IHv Hwfv vitems eq_refl). }
    rewrite Hr. simpl. rewrite (set_absent _ v _ Hacc).
    rewrite IHrest; auto.
    + now rewrite <- app_assoc.
    + intros k' Hk'. rewrite get_snoc.
      rewrite Hfresh by (simpl; rewrite Hk'; apply orb_true_r).
      destruct (k' =? k) eqn:E; auto.
      apply String.eqb_eq in E. subst k'. congruence.
Qed.

Lemma update_nested_empty (u : value) :
  wf u = true ->
  forall items, u = VDict items -> update_nested (VDict []) u = Ok u.
Proof.
  induction u as [| z | s | uitems IH] using value_ind;
    intros Hwf items Hu; try discriminate.
  rewrite update_nested_dict.
  simpl in Hwf. apply andb_true_iff in Hwf. destruct Hwf as [Hnd Hwfs].
  now rewrite (update_loop_copy IH Hnd Hwfs []).
Qed.

(** ** Computations that leave the objects alone *)

Lemma reads_world_ret {A} (a : A) : reads_world (ret a).
Proof. split; intros; simpl; auto. Qed.

Lemma reads_world_raise {A} (e : exn) : reads_world (@raise A e).
Proof. split; intros; simpl; auto. Qed.

Lemma reads_world_lift {A} (r : result A) : reads_world (lift r).
Proof. split; intros; simpl; auto. Qed.

Lemma reads_world_emit (e : event) : reads_world (emit e).
Proof. split; intros; simpl; auto. Qed.

Lemma reads_world_ask : reads_world ask.
Proof. split; intros; simpl; auto. congruence. Qed.

Lemma reads_world_bind {A B} (m : M A) (f : A -> M B) :
  reads_world m -> (forall a, reads_world (f a)) -> reads_world (bind m f).
Proof.
  intros [Hm1 Hm2] Hf. split.
  - intros st st' Henv. unfold bind.
    pose proof (Hm1 _ _ Henv) as H1.
    destruct (Hm2 st) as [E1 _]. destruct (Hm2 st') as [E2 _].
    destruct (m st) as [[a|e] s1]; destruct (m st') as [[a'|e'] s2];
      simpl in *; try congruence.
    inversion H1. subst a'. apply (proj1 (Hf a)). congruence.
  - intros st. unfold bind.
    destruct (Hm2 st) as [E1 E2].
    destruct (m st) as [[a|e] s1]; simpl in *; auto.
    destruct (proj2 (Hf a) s1) as [E3 E4]. split; congruence.
Qed.

Create HintDb reads_world.

#[local] Hint Resolve reads_world_ret reads_world_raise reads_world_lift
  reads_world_emit reads_world_ask : reads_world.

Ltac reads_world_tac :=
  repeat first
    [ apply reads_world_bind; [|intro]
    | solve [auto with reads_world]
    | match goal with
      | |- reads_world (if ?b then _ else _) => destruct b
      | |- reads_world (match ?x with _ => _ end) => destruct x
      end ].

Lemma reads_world_loop exclude_set env_prefix split_char max_depth vars :
  forall settings_map,
    reads_world (parse_env_vars_loop exclude_set env_prefix split_char max_depth
                   vars settings_map).
Proof.
  induction vars as [|[env_var val] rest IH]; intros settings_map; simpl.
  - auto with reads_world.
  - destruct (existsb _ _ || negb _); [apply IH|].
    destruct (is_nil _); [apply IH|].
    reads_world_tac.
Qed.

Lemma reads_world_parse_env_vars env_prefix max_depth split_char exclude :
  reads_world (parse_env_vars env_prefix max_depth split_char exclude).
Proof.
  unfold parse_env_vars.
  destruct split_char as [|c [|]]; auto with reads_world.
  match goal with
  | |- reads_world (if ?b then _ else _) => destruct b
  end; auto with reads_world.
  reads_world_tac. apply reads_world_loop.
Qed.

Lemma reads_world_read_file (self : Settings.t) :
  reads_world (Settings.read_file self).
Proof.
  unfold Settings.read_file, Settings._read_file.
  destruct (Settings.settings_file self) as [[|c s]|]; auto with reads_world.
  reads_world_tac.
Qed.

(** ** Objects *)

Lemma nth_replace_nth (h : list value) (l : nat) (v : value) :
  (l < List.length h)%nat -> nth l (replace_nth l v h) VNone = v.
Proof.
  revert l. induction h as [|x h IH]; intros [|l] Hl; simpl in *; try lia; auto.
  apply IH. lia.
Qed.

Lemma length_replace_nth (h : list value) (l : nat) (v : value) :
  List.length (replace_nth l v h) = List.length h.
Proof.
  revert l. induction h as [|x h IH]; intros [|l]; simpl; auto.
Qed.

Lemma nth_alloc (h : list value) (v : value) :
  nth (List.length h) (h ++ [v]) VNone = v.
Proof. rewrite app_nth2 by lia. now rewrite Nat.sub_diag. Qed.

Lemma update_nested_at_run (l : loc) (u : value) (st : state) :
  update_nested_at l u st =
  match update_nested (nth l (heap st) VNone) u with
  | Ok new =>
      (Ok tt, {| env := env st; heap := replace_nth l new (heap st); trace := trace st |})
  | Raise e => (Raise e, st)
  end.
Proof.
  unfold update_nested_at, bind, deref, lift, assign.
  destruct (update_nested (nth l (heap st) VNone) u); reflexivity.
Qed.

(** ** The nested merge, entry by entry *)

(** C8, as amended.  Let [dest] and [src] be dictionaries, [src] with each
    key once at every level, such that no scalar of [dest] sits where [src]
    has a non-empty dictionary.  Then [update_nested dest src] returns a
    dictionary [m], and for every item [(k, v)] of [src]: when [v] is a
    dictionary, [m[k]] is the recursive merge of [v] into [dest.get(k, {})],
    that is into an empty dictionary when [k] is absent from [dest] and
    into [dest[k]] itself otherwise; when [v] is not a dictionary,
    [m[k] = v]. *)
Theorem update_nested_entries (dest src : Dict.t) :
  wf (VDict src) = true ->
  mergeable (VDict dest) (VDict src) = true ->
  exists m,
    update_nested (VDict dest) (VDict src) = Ok (VDict m) /\
    forall k v,
      Dict.get k src = Some v ->
      if is_mapping v then
        exists r,
          update_nested
            (match Dict.get k dest with Some d0 => d0 | None => VDict [] end) v = Ok r /\
          Dict.get k m = Some r
      else Dict.get k m = Some v.
Proof.
  intros Hwf Hmg.
  destruct (update_nested_total _ Hwf _ Hmg) as [m0 Hm0].
  rewrite update_nested_dict in Hm0.
  simpl in Hwf. apply andb_true_iff in Hwf. destruct Hwf as [Hnd _].
  destruct src as [|kv src'].
  - simpl in Hm0. inversion Hm0. subst m0. exists dest. split; auto.
    intros k v Hk. discriminate.
  - destruct kv as [k0 v0].
    destruct (update_loop_entry _ _ k0 (v := v0) Hnd Hm0) as [m [_ [-> _]]].
    { simpl. now rewrite String.eqb_refl. }
    exists m. split; [now rewrite update_nested_dict|].
    intros k v Hk.
    destruct (update_loop_entry _ _ k Hnd Hm0 Hk) as [m' [r [Heq [Hr Hget]]]].
    inversion Heq. subst m'. unfold merged_entry in Hr.
    destruct (is_mapping v).
    + simpl in Hr. destruct (Dict.get k dest); simpl in Hr; eauto.
    + inversion Hr. now subst r.
Qed.

Lemma update_nested_entries_witness :
  exists m,
    update_nested (VDict [("a", VDict [("x", VStr "1")]); ("c", VStr "3")])
                  (VDict [("a", VDict [("y", VStr "2")]); ("b", VDict [("z", VStr "4")]);
                          ("c", VStr "5")])
    = Ok (VDict m) /\
    Dict.get "c" m = Some (VStr "5").
Proof.
  destruct (@update_nested_entries
              [("a", VDict [("x", VStr "1")]); ("c", VStr "3")]
              [("a", VDict [("y", VStr "2")]); ("b", VDict [("z", VStr "4")]);
               ("c", VStr "5")] eq_refl eq_refl) as [m [Hm Hall]].
  exists m. split; [exact Hm|].
  exact (Hall "c" (VStr "5") eq_refl).
Defined.

(** C8, as stated, fails where [dest[k]] is a scalar.  With
    [dest = {'a': '1'}] and [src = {'a': {'b': '2'}}] the merge raises
    [TypeError], where the claim has [{'a': {'b': '2'}}], the merge of
    [{'b': '2'}] into an empty dictionary; with [src = {'a': {}}] the
    scalar stays, where the claim has [{'a': {}}]. *)
Lemma update_nested_scalar_dest_counterexample :
  update_nested (VDict [("a", VStr "1")]) (VDict [("a", VDict [("b", VStr "2")])])
  = Raise TypeError /\
  update_nested (VDict []) (VDict [("b", VStr "2")]) = Ok (VDict [("b", VStr "2")]) /\
  update_nested (VDict [("a", VStr "1")]) (VDict [("a", VDict [])])
  = Ok (VDict [("a", VStr "1")]) /\
  py_eq (VDict [("a", VStr "1")]) (VDict [("a", VDict [])]) = false.
Proof. repeat split. Qed.

(** ** The map of the environment *)

Lemma single_branch_wf (nested_keys : list string) (val : string) :
  forall u,
    single_branch nested_keys val = Ok u ->
    wf u = true /\ exists items, u = VDict items.
Proof.
  induction nested_keys as [|k rest IH]; intros u Hu; simpl in Hu; [discriminate|].
  destruct rest as [|k' rest].
  - inversion Hu. subst u. split; eauto.
  - destruct (single_branch (k' :: rest) val) as [u'|]; simpl in Hu; [|discriminate].
    inversion Hu. subst u. destruct (IH u' eq_refl) as [Hwf _].
    split; eauto. simpl. now rewrite Hwf.
Qed.

Lemma update_nested_dict_result (d u : Dict.t) (m : value) :
  update_nested (VDict d) (VDict u) = Ok m -> exists m', m = VDict m'.
Proof. rewrite update_nested_dict. apply update_loop_dict. Qed.

Lemma parse_env_vars_loop_wf exclude_set env_prefix split_char max_depth vars :
  forall d st m st',
    wf (VDict d) = true ->
    parse_env_vars_loop exclude_set env_prefix split_char max_depth vars (VDict d) st
    = (Ok m, st') ->
    wf m = true /\ exists items, m = VDict items.
Proof.
  induction vars as [|[env_var val] rest IH]; intros d st m st' Hwf Hrun; simpl in Hrun.
  - inversion Hrun. subst. eauto.
  - destruct (existsb _ _ || negb _); [eapply IH; eauto|].
    destruct (is_nil _); [eapply IH; eauto|].
    unfold bind at 1 in Hrun. unfold lift at 1 in Hrun.
    destruct (single_branch _ val) as [update|] eqn:Hupdate; [|discriminate].
    destruct (single_branch_wf _ _ Hupdate) as [Hwfu [uitems ->]].
    unfold bind at 1 in Hrun. unfold emit at 1 in Hrun.
    unfold bind at 1 in Hrun. unfold lift at 1 in Hrun.
    destruct (update_nested (VDict d) (VDict uitems)) as [sm|] eqn:Hsm; [|discriminate].
    destruct (update_nested_dict_result _ _ Hsm) as [d' ->].
    eapply IH; [|exact Hrun].
    eapply update_nested_wf; [exact Hwfu| |exact Hsm]. exact Hwf.
Qed.

(** The map that [parse_env_vars] returns is a dictionary with each key
    once, at every level. *)
Lemma parse_env_vars_wf env_prefix max_depth split_char exclude st m st' :
  parse_env_vars env_prefix max_depth split_char exclude st = (Ok m, st') ->
  wf m = true /\ exists items, m = VDict items.
Proof.
  unfold parse_env_vars. destruct split_char as [|c [|]]; try discriminate.
  match goal with
  | |- (if ?b then _ else _) _ = _ -> _ => destruct b
  end.
  - intros H. inversion H. subst. eauto.
  - unfold bind, ask, emit. apply parse_env_vars_loop_wf. reflexivity.
Qed.

(** ** Where the leaves of a merge come from *)

Lemma untouched_mapping (path : list string) (u : value) :
  untouched path u = true -> is_mapping u = true.
Proof. destruct path, u; simpl; congruence. Qed.

(** A value of [d] on a path that [u] leaves untouched is in the merge
    at the same path. *)
Lemma update_nested_untouched (u : value) :
  wf u = true ->
  forall d m path x,
    update_nested d u = Ok m ->
    lookup_path path d = Some x ->
    untouched path u = true ->
    lookup_path path m = Some x.
Proof.
  induction u as [| z | s | items IH] using value_ind;
    intros Hwf d m path x Hm Hd Hu; try discriminate.
  rewrite update_nested_dict in Hm.
  destruct items as [|kv0 items0].
  { simpl in Hm. inversion Hm. now subst. }
  destruct (update_loop_dest (items := kv0 :: items0) d) with (m := m)
    as [dd ->]; [discriminate|exact Hm|].
  destruct (update_loop_dict _ _ Hm) as [mm ->].
  change (nodup_keys (Dict.keys (kv0 :: items0))
          && forallb (fun kv => wf (snd kv)) (kv0 :: items0) = true) in Hwf.
  apply andb_true_iff in Hwf. destruct Hwf as [Hnd Hwfs].
  destruct path as [|k rest]; [discriminate|].
  remember (kv0 :: items0) as items eqn:Hitems.
  simpl in Hd. destruct (Dict.get k dd) as [dv|] eqn:Hdk; [|discriminate].
  simpl in Hu. simpl.
  destruct (Dict.get k items) as [v|] eqn:Hk.
  - destruct (update_loop_entry items dd k Hnd Hm Hk)
      as [m' [r [Heq [Hr Hget]]]].
    inversion Heq. subst m'. rewrite Hget.
    pose proof (get_in _ _ Hk) as Hin.
    unfold merged_entry in Hr. rewrite (untouched_mapping _ _ Hu) in Hr.
    simpl in Hr. rewrite Hdk in Hr. simpl in Hr.
    rewrite Forall_forall in IH. apply (IH _ Hin) with (d := dv); auto.
    rewrite forallb_forall in Hwfs. apply (Hwfs _ Hin).
  - destruct (update_loop_other _ _ k Hm (get_none_keys _ _ Hk)) as [m' [Heq Hget]].
    inversion Heq. subst m'. now rewrite Hget, Hdk.
Qed.

(** A leaf of the merge is a leaf of [u], or a leaf of [d] on a path that
    [u] leaves untouched. *)
Lemma update_nested_leaf_origin (u : value) :
  wf u = true ->
  forall d m path x,
    update_nested d u = Ok m ->
    is_mapping x = false ->
    lookup_path path m = Some x ->
    lookup_path path u = Some x \/
    (lookup_path path d = Some x /\ untouched path u = true).
Proof.
  induction u as [| z | s | items IH] using value_ind;
    intros Hwf d m path x Hm Hx Hp; try discriminate.
  rewrite update_nested_dict in Hm.
  destruct items as [|kv0 items0].
  { simpl in Hm. inversion Hm. subst m. right. split; [exact Hp|].
    destruct path; reflexivity. }
  destruct (update_loop_dest (items := kv0 :: items0) d) with (m := m)
    as [dd ->]; [discriminate|exact Hm|].
  destruct (update_loop_dict _ _ Hm) as [mm ->].
  change (nodup_keys (Dict.keys (kv0 :: items0))
          && forallb (fun kv => wf (snd kv)) (kv0 :: items0) = true) in Hwf.
  apply andb_true_iff in Hwf. destruct Hwf as [Hnd Hwfs].
  destruct path as [|k rest].
  { simpl in Hp. inversion Hp. subst x. discriminate. }
  remember (kv0 :: items0) as items eqn:Hitems.
  simpl in Hp. destruct (Dict.get k mm) as [mv|] eqn:Hmk; [|discriminate].
  simpl.
  destruct (Dict.get k items) as [v|] eqn:Hk.
  - destruct (update_loop_entry items dd k Hnd Hm Hk)
      as [m' [r [Heq [Hr Hget]]]].
    inversion Heq. subst m'. rewrite Hmk in Hget. inversion Hget. subst r.
    pose proof (get_in _ _ Hk) as Hin.
    unfold merged_entry in Hr. destruct (is_mapping v) eqn:Hv.
    + simpl in Hr.
      assert (Hwfv : wf v = true).
      { rewrite forallb_forall in Hwfs. apply (Hwfs _ Hin). }
      rewrite Forall_forall in IH.
      destruct (Dict.get k dd) as [dv|] eqn:Hdk; simpl in Hr.
      * destruct (IH _ Hin Hwfv dv mv rest x Hr Hx Hp) as [H|[H1 H2]];
          [left; exact H|right; split; assumption].
      * destruct (IH _ Hin Hwfv (VDict []) mv rest x Hr Hx Hp) as [H|[H1 H2]];
          [left; exact H|].
        exfalso. destruct rest; simpl in H1.
        -- inversion H1. subst x. discriminate.
        -- discriminate.
    + inversion Hr. subst mv. auto.
  - destruct (update_loop_other _ _ k Hm (get_none_keys _ _ Hk)) as [m' [Heq Hget]].
    inversion Heq. subst m'. rewrite Hmk in Hget. rewrite <- Hget. auto.
Qed.

(** The leaves of a merge: those of [u], and those of [d] on the paths
    that [u] leaves untouched. *)
Lemma update_nested_leaves (u : value) :
  wf u = true ->
  forall d m path x,
    update_nested d u = Ok m ->
    is_mapping x = false ->
    (lookup_path path m = Some x <->
     lookup_path path u = Some x \/
     (lookup_path path d = Some x /\ untouched path u = true)).
Proof.
  intros Hwf d m path x Hm Hx. split.
  - now apply update_nested_leaf_origin.
  - intros [H|[H1 H2]].
    + eapply update_nested_leaf; eauto.
    + eapply update_nested_untouched; eauto.
Qed.

(** ** The order of the sources *)

(** What the first part of [build_settings_map] has done when it returns
    the object [l]: the map [e] of the environment was merged into an empty
    dictionary, giving [e] again, and the map [f] of the file was merged
    into that, giving the content of [l].  The leaves of that content are
    the leaves of [f], and the leaves of [e] on the paths that [f] leaves
    untouched. *)
Lemma merge_sources_result (self : Settings.t) (st st' : state) (l : loc) :
  Settings.merge_sources self st = (Ok l, st') ->
  exists e f d1,
    fst (Settings.parse_env_vars self st) = Ok e /\
    fst (Settings.read_file self st) = Ok f /\
    update_nested (VDict []) e = Ok d1 /\
    update_nested d1 f = Ok (nth l (heap st') VNone) /\
    (wf f = true ->
     forall path x,
       lookup_path path f = Some x -> is_mapping x = false ->
       lookup_path path (nth l (heap st') VNone) = Some x) /\
    d1 = e /\
    (wf f = true ->
     forall path x,
       is_mapping x = false ->
       (lookup_path path (nth l (heap st') VNone) = Some x <->
        lookup_path path f = Some x \/
        (lookup_path path e = Some x /\ untouched path f = true))).
Proof.
  intros Hrun.
  pose proof (reads_world_parse_env_vars (Settings.env_prefix self) 1 "_"
                [Settings.settings_file_env_var self]) as [Hp1 Hp2].
  fold (Settings.parse_env_vars self) in Hp1, Hp2.
  pose proof (reads_world_read_file self) as [Hr1 Hr2].
  unfold Settings.merge_sources in Hrun.
  unfold bind at 1 in Hrun. unfold alloc at 1 in Hrun.
  set (sta := {| env := env st; heap := heap st ++ [VDict []]; trace := trace st |}) in Hrun.
  unfold bind at 1 in Hrun.
  pose proof (Hp1 st sta eq_refl) as He.
  destruct (Hp2 sta) as [Henv1 Hheap1].
  destruct (Settings.parse_env_vars self sta) as [[e|ex] st1] eqn:Hparse; [|discriminate].
  simpl in He, Henv1, Hheap1.
  destruct (parse_env_vars_wf _ _ _ _ _ Hparse) as [Hwfe [eitems Heq]].
  unfold bind at 1 in Hrun. rewrite update_nested_at_run in Hrun.
  rewrite Hheap1, nth_alloc in Hrun.
  pose proof (update_nested_empty Hwfe Heq) as Hd1. rewrite Hd1 in Hrun.
  set (stb := {| env := env st1;
                 heap := replace_nth (List.length (heap st)) e (heap st ++ [VDict []]);
                 trace := trace st1 |}) in Hrun.
  unfold bind at 1 in Hrun.
  pose proof (Hr1 st stb (eq_sym Henv1)) as Hf.
  destruct (Hr2 stb) as [Henv2 Hheap2].
  destruct (Settings.read_file self stb) as [[f|ex] st2]; [|discriminate].
  simpl in Hf, Henv2, Hheap2.
  unfold bind at 1 in Hrun. rewrite update_nested_at_run in Hrun.
  rewrite Hheap2, nth_replace_nth in Hrun
    by (rewrite length_app; simpl; lia).
  destruct (update_nested e f) as [d2|ex] eqn:Hd2; [|discriminate].
  unfold ret in Hrun. inversion Hrun. subst l st'. clear Hrun. simpl.
  rewrite nth_replace_nth
    by (rewrite length_replace_nth, length_app; simpl; lia).
  exists e, f, e.
  split; [exact He|]. split; [exact Hf|]. split; [exact Hd1|]. split; [exact Hd2|].
  split; [|split; [reflexivity|]].
  - intros Hwf path x Hpath Hx. eapply update_nested_leaf; eauto.
  - intros Hwf path x Hx. exact (@update_nested_leaves f Hwf e d2 path x Hd2 Hx).
Qed.

(** The first part of [build_settings_map] returns whenever the two
    sources are read and no scalar of the environment sits where the file
    has a non-empty table. *)
Lemma merge_sources_returns (self : Settings.t) (st : state) (e f : value) :
  fst (Settings.parse_env_vars self st) = Ok e ->
  fst (Settings.read_file self st) = Ok f ->
  wf f = true ->
  mergeable e f = true ->
  exists l st', Settings.merge_sources self st = (Ok l, st').
Proof.
  intros He Hf Hwf Hmg.
  pose proof (reads_world_parse_env_vars (Settings.env_prefix self) 1 "_"
                [Settings.settings_file_env_var self]) as [Hp1 Hp2].
  fold (Settings.parse_env_vars self) in Hp1, Hp2.
  pose proof (reads_world_read_file self) as [Hr1 Hr2].
  unfold Settings.merge_sources.
  unfold bind at 1. unfold alloc at 1.
  set (sta := {| env := env st; heap := heap st ++ [VDict []]; trace := trace st |}).
  unfold bind at 1.
  pose proof (Hp1 st sta eq_refl) as He'. rewrite He in He'.
  destruct (Hp2 sta) as [Henv1 Hheap1].
  destruct (Settings.parse_env_vars self sta) as [[e'|ex] st1] eqn:Hrun;
    simpl in He', Henv1, Hheap1; [|discriminate].
  inversion He'. subst e'.
  destruct (parse_env_vars_wf _ _ _ _ _ Hrun) as [Hwfe [eitems Heq]].
  unfold bind at 1. rewrite update_nested_at_run.
  rewrite Hheap1, nth_alloc.
  rewrite (update_nested_empty Hwfe Heq).
  unfold bind at 1.
  match goal with
  | |- context [Settings.read_file self ?s] => set (stb := s)
  end.
  pose proof (Hr1 st stb (eq_sym Henv1)) as Hf'. rewrite Hf in Hf'.
  destruct (Hr2 stb) as [Henv2 Hheap2].
  destruct (Settings.read_file self stb) as [[f'|ex] st2];
    simpl in Hf', Henv2, Hheap2; [|discriminate].
  inversion Hf'. subst f'.
  unfold bind at 1. rewrite update_nested_at_run.
  rewrite Hheap2. unfold stb. cbn [heap].
  rewrite nth_replace_nth by (rewrite length_app; simpl; lia).
  destruct (update_nested_total _ Hwf _ Hmg) as [d2 ->].
  unfold bind, ret. eauto.
Qed.

(** C3.  The first part of [build_settings_map] merges the map [e] of the
    environment into an empty dictionary, which gives [e] again, and then
    the map [f] of the file into the result.  It returns whenever the two
    sources are read, [f] has each key once at every level and no scalar
    of [e] sits where [f] has a non-empty table.  Whenever it returns the
    object [l], the leaves of the content of [l] are exactly the leaves of
    [f] and the leaves of [e] on the paths that [f] leaves untouched: both
    maps are merged in, and on a path where both have a leaf the value of
    the file is the one that stays. *)
Theorem file_overrides_environment (self : Settings.t) (st : state) :
  (forall e f,
      fst (Settings.parse_env_vars self st) = Ok e ->
      fst (Settings.read_file self st) = Ok f ->
      wf f = true ->
      mergeable e f = true ->
      exists l st', Settings.merge_sources self st = (Ok l, st')) /\
  (forall l st',
      Settings.merge_sources self st = (Ok l, st') ->
      exists e f d1,
        fst (Settings.parse_env_vars self st) = Ok e /\
        fst (Settings.read_file self st) = Ok f /\
        update_nested (VDict []) e = Ok d1 /\
        update_nested d1 f = Ok (nth l (heap st') VNone) /\
        (wf f = true ->
         forall path x,
           lookup_path path f = Some x -> is_mapping x = false ->
           lookup_path path (nth l (heap st') VNone) = Some x) /\
        d1 = e /\
        (wf f = true ->
         forall path x,
           is_mapping x = false ->
           (lookup_path path (nth l (heap st') VNone) = Some x <->
            lookup_path path f = Some x \/
            (lookup_path path e = Some x /\ untouched path f = true)))).
Proof.
  split.
  - intros e f He Hf Hwf Hmg. eapply merge_sources_returns; eauto.
  - intros l st' Hrun. now apply merge_sources_result.
Qed.

Lemma file_overrides_environment_witness :
  (exists l st',
      Settings.merge_sources inline_settings (initial inline_world) = (Ok l, st')) /\
  lookup_path ["a"; "b"]
    (nth 0 (heap (snd (Settings.merge_sources inline_settings (initial inline_world))))
       VNone)
  = Some (VStr "from_file") /\
  lookup_path ["a"; "c"]
    (nth 0 (heap (snd (Settings.merge_sources inline_settings (initial inline_world))))
       VNone)
  = Some (VStr "only_env").
Proof.
  split.
  - apply (proj1 (file_overrides_environment inline_settings (initial inline_world))
             (VDict [("a", VDict [("b", VStr "from_env"); ("c", VStr "only_env")])])
             (VDict [("a", VDict [("b", VStr "from_file")])]));
      reflexivity.
  - destruct (proj2 (file_overrides_environment inline_settings (initial inline_world))
                0 (snd (Settings.merge_sources inline_settings (initial inline_world)))
                eq_refl)
      as [e [f [d1 [He [Hf [Hd1 [Hd2 [Hleaf [Heq Hiff]]]]]]]]].
    subst d1. vm_compute in Hf, He.
    injection Hf as Hf. injection He as He. subst f e.
    split.
    + apply Hleaf; reflexivity.
    + apply (Hiff eq_refl); [reflexivity|]. right. split; reflexivity.
Defined.

(** ** The subtree filter *)

Lemma subtree_FStr (data : loc) (key : string) (ph : list string) :
  subtree data (FStr key) ph = subtree_key data key ph.
Proof. reflexivity. Qed.

(** C4.  With a filter whose truth value is false, [subtree] returns the
    object [data] itself and changes nothing; with the filter ['*'] too,
    so that the result is equal to [data]. *)
Theorem subtree_empty_or_wildcard (data : loc) (ph : list string) (st : state) :
  (forall filters,
      filter_truthy filters = false ->
      subtree data filters ph st = (Ok data, st)) /\
  subtree data (FStr "*") ph st = (Ok data, st).
Proof.
  split; [|reflexivity].
  intros filters Hf.
  destruct filters; simpl in *; try rewrite Hf; try discriminate; reflexivity.
Qed.

Lemma subtree_empty_or_wildcard_witness :
  subtree 0 FNone ["settings"]
    {| env := bare_world; heap := [VDict [("a", VStr "1")]]; trace := [] |}
  = (Ok 0, {| env := bare_world; heap := [VDict [("a", VStr "1")]]; trace := [] |}).
Proof.
  apply (proj1 (subtree_empty_or_wildcard 0 ["settings"]
                  {| env := bare_world; heap := [VDict [("a", VStr "1")]]; trace := [] |})).
  reflexivity.
Defined.

(** C5, as amended.  For a dictionary [data] without the key [key], where
    [key] is neither the empty string nor ['*'], [subtree] with the filter
    [key] raises nothing, returns a new empty dictionary and logs one
    warning, which names the parent path, joined by dots, and the key. *)
Theorem subtree_missing_key (data : loc) (items : Dict.t) (key : string)
  (ph : list string) (st : state) :
  nth data (heap st) VNone = VDict items ->
  Dict.get key items = None ->
  key <> "" ->
  key <> "*" ->
  subtree data (FStr key) ph st =
  (Ok (List.length (heap st)),
   {| env := env st;
      heap := heap st ++ [VDict []];
      trace := trace st ++
               [EvLog WARNING
                  ("Section " ++ Str.join "." ph ++ "." ++ key ++ " not found in data")%string]
   |}).
Proof.
  intros Hdata Hget Hne Hnw.
  apply String.eqb_neq in Hne, Hnw.
  simpl. rewrite Hne, Hnw. simpl.
  unfold subtree_str, bind, deref. rewrite Hdata. simpl. rewrite Hget.
  reflexivity.
Qed.

Lemma subtree_missing_key_witness :
  subtree 0 (FStr "missing_key") ["settings"]
    {| env := bare_world; heap := [VDict [("a", VStr "1")]]; trace := [] |}
  = (Ok 1,
     {| env := bare_world;
        heap := [VDict [("a", VStr "1")]; VDict []];
        trace := [EvLog WARNING "Section settings.missing_key not found in data"] |}).
Proof.
  apply (@subtree_missing_key 0 [("a", VStr "1")] "missing_key" ["settings"]
           {| env := bare_world; heap := [VDict [("a", VStr "1")]]; trace := [] |});
    [reflexivity | reflexivity | discriminate | discriminate].
Defined.

(** C5, as stated, fails for the key ['*']: [{'a': '1'}] has no key ['*'],
    and the filter ['*'] returns the dictionary itself, which is not
    empty, and logs nothing. *)
Lemma subtree_wildcard_key_counterexample :
  Dict.get "*" [("a", VStr "1")] = None /\
  subtree_value (VDict [("a", VStr "1")]) (FStr "*") ["settings"]
  = (Ok (VDict [("a", VStr "1")]), []) /\
  py_eq (VDict [("a", VStr "1")]) (VDict []) = false.
Proof. repeat split. Qed.

(** C2: the code at a failing input.  With
    [data = {'a': {'b': {'c': '1'}}}] the filter [{'a': 'b'}] returns
    [{'c': '1'}], the content of [data['a']['b']], and not
    [{'a': {'c': '1'}}], which is [filter(data['a'], 'b')] under the key
    ['a']; when [data['a']['b']] is the string ['x'] it raises
    [ValueError]. *)
Theorem subtree_keyed_filter_not_wrapped :
  subtree_value (VDict [("a", VDict [("b", VDict [("c", VStr "1")])])])
    (FDict [("a", FStr "b")]) []
  = (Ok (VDict [("c", VStr "1")]), []) /\
  subtree_value (VDict [("b", VDict [("c", VStr "1")])]) (FStr "b") []
  = (Ok (VDict [("c", VStr "1")]), []) /\
  py_eq (VDict [("c", VStr "1")]) (VDict [("a", VDict [("c", VStr "1")])]) = false /\
  subtree_value (VDict [("a", VDict [("b", VStr "x")])]) (FDict [("a", FStr "b")]) []
  = (Raise ValueError, []).
Proof. repeat split. Qed.

(** C9, as amended.  For a dictionary [data] in which the keys [a] and [b]
    (neither empty nor ['*']) hold dictionaries, the filter [[a, b]] returns
    a new dictionary updated with [filter(data, a)] and then with
    [filter(data, b)], as [dict.update] does: on a key that both have, the
    value of the second replaces the value of the first whole.  Both
    filters are applied to [data] itself, and nothing is logged. *)
Theorem subtree_collection_two_keys (d da db : Dict.t) (a b : string)
  (ph : list string) :
  a <> "" -> a <> "*" -> b <> "" -> b <> "*" ->
  Dict.get a d = Some (VDict da) ->
  Dict.get b d = Some (VDict db) ->
  subtree_value (VDict d) (FStr a) ph = (Ok (VDict da), []) /\
  subtree_value (VDict d) (FStr b) ph = (Ok (VDict db), []) /\
  subtree_value (VDict d) (FList [FStr a; FStr b]) ph
  = (Ok (VDict (Dict.update_items (Dict.update_items [] da) db)), []).
Proof.
  intros Ha Ha' Hb Hb' Hda Hdb.
  apply String.eqb_neq in Ha, Ha', Hb, Hb'.
  unfold subtree_value. simpl. rewrite Ha, Ha', Hb, Hb'. simpl.
  unfold subtree_str, bind, deref, deepcopy, alloc, dict_update_at, lift, assign, ret.
  simpl. rewrite Hda. simpl. rewrite Hdb. simpl. repeat split.
Qed.

Lemma subtree_collection_two_keys_witness :
  subtree_value
    (VDict [("a", VDict [("x", VStr "1")]); ("b", VDict [("y", VStr "2")]);
            ("c", VStr "3")])
    (FList [FStr "a"; FStr "b"]) ["settings"]
  = (Ok (VDict [("x", VStr "1"); ("y", VStr "2")]), []).
Proof.
  apply (@subtree_collection_two_keys
           [("a", VDict [("x", VStr "1")]); ("b", VDict [("y", VStr "2")]);
            ("c", VStr "3")]
           [("x", VStr "1")] [("y", VStr "2")] "a" "b" ["settings"]);
    solve [discriminate | reflexivity].
Defined.

(** C9, as stated, fails when the two results share a key that holds
    dictionaries.  With
    [data = {'a': {'x': {'p': '1'}}, 'b': {'x': {'q': '2'}}}] the filter
    [['a', 'b']] returns [{'x': {'q': '2'}}], and the nested merge of
    [filter(data, 'b')] into [filter(data, 'a')] is
    [{'x': {'p': '1', 'q': '2'}}]. *)
Lemma subtree_collection_shallow_counterexample :
  subtree_value
    (VDict [("a", VDict [("x", VDict [("p", VStr "1")])]);
            ("b", VDict [("x", VDict [("q", VStr "2")])])])
    (FList [FStr "a"; FStr "b"]) []
  = (Ok (VDict [("x", VDict [("q", VStr "2")])]), []) /\
  subtree_value
    (VDict [("a", VDict [("x", VDict [("p", VStr "1")])]);
            ("b", VDict [("x", VDict [("q", VStr "2")])])])
    (FStr "a") []
  = (Ok (VDict [("x", VDict [("p", VStr "1")])]), []) /\
  subtree_value
    (VDict [("a", VDict [("x", VDict [("p", VStr "1")])]);
            ("b", VDict [("x", VDict [("q", VStr "2")])])])
    (FStr "b") []
  = (Ok (VDict [("x", VDict [("q", VStr "2")])]), []) /\
  update_nested (VDict [("x", VDict [("p", VStr "1")])])
                (VDict [("x", VDict [("q", VStr "2")])])
  = Ok (VDict [("x", VDict [("p", VStr "1"); ("q", VStr "2")])]) /\
  py_eq (VDict [("x", VDict [("q", VStr "2")])])
        (VDict [("x", VDict [("p", VStr "1"); ("q", VStr "2")])]) = false.
Proof. repeat split. Qed.

(** ** The decomposition of environment variables *)



(** C7: the code at a failing input.  The variable [MY_APP_], whose name
    is empty once the prefix [my_app_] is stripped, is not skipped: it
    gives the result the key [''], and its reading is logged. *)
Theorem parse_env_vars_keeps_empty_name :
  Str.drop (String.length "my_app_") (Str.lower "MY_APP_") = "" /\
  parse_env_vars "MY_APP" 1 "_" [] (initial (with_environ [("MY_APP_", "v")]))
  = (Ok (VDict [("", VStr "v")]),
     {| env := with_environ [("MY_APP_", "v")];
        heap := [];
        trace := [EvEnvironScan;
                  EvLog INFO "Getting settings from env var: MY_APP_"] |}).
Proof. split; reflexivity. Qed.

(** ** Construction *)

(** C6, as amended.  For every parser that cannot be called and whose
    truth value is true, the body of [__init__] raises [TypeError] and
    leaves the state as it was: no event, of the environment or of the
    file system, and no object.  The construction raises the same error;
    its only event is the exception handed to the logger. *)
Theorem truthy_non_callable_parser_rejected (settings_file : option string)
  (env_prefix suffix : string) (filters : filter) (v : value) (st : state) :
  truthy v = true ->
  Settings.init_body settings_file env_prefix suffix filters (PyVal v) st
  = (Raise TypeError, st) /\
  Settings.init settings_file env_prefix suffix filters (PyVal v) st
  = (Raise TypeError,
     {| env := env st; heap := heap st; trace := trace st ++ [EvLogException TypeError] |}).
Proof.
  intros Hv.
  assert (H : Settings.init_body settings_file env_prefix suffix filters (PyVal v) st
              = (Raise TypeError, st)).
  { unfold Settings.init_body. simpl. rewrite Hv. reflexivity. }
  split; [exact H|].
  unfold Settings.init, log_exception. rewrite H. reflexivity.
Qed.

Lemma truthy_non_callable_parser_rejected_witness :
  Settings.init None "APP_SETTINGS" "SETTINGS_FILE" FNone (PyVal (VStr "parser"))
    (initial bare_world)
  = (Raise TypeError,
     {| env := bare_world; heap := []; trace := [EvLogException TypeError] |}).
Proof.
  apply (proj2 (@truthy_non_callable_parser_rejected None "APP_SETTINGS" "SETTINGS_FILE"
                  FNone (VStr "parser") (initial bare_world) eq_refl)).
Defined.

(** C6, as stated, fails for a parser that cannot be called and whose
    truth value is false: with the integer [0] the construction returns,
    here with an empty map. *)
Lemma falsy_non_callable_parser_counterexample :
  callable (PyVal (VInt 0)) = false /\
  constructed (Settings.init None "APP_SETTINGS" "SETTINGS_FILE" FNone (PyVal (VInt 0))
                 (initial bare_world))
  = Ok (VDict []).
Proof. split; reflexivity. Qed.

Lemma read_file_none (self : Settings.t) (sf : string) (st : state) :
  Settings.settings_file self = Some sf ->
  sf <> "" ->
  os_path_isfile (env st) sf = false ->
  Str.startswith (Str.lstrip sf) "[" = false ->
  Settings._read_file self st
  = (Ok VNone,
     {| env := env st; heap := heap st; trace := trace st ++ [EvIsFile sf] |}).
Proof.
  intros Hsf Hne Hfile Hinline.
  unfold Settings._read_file. rewrite Hsf.
  destruct sf as [|c s]; [congruence|].
  unfold bind, ask, emit. cbv beta iota. cbn [env heap trace].
  rewrite Hfile, Hinline. reflexivity.
Qed.

Lemma merge_sources_none (self : Settings.t) (sf : string) (st : state) :
  Settings.settings_file self = Some sf ->
  sf <> "" ->
  os_path_isfile (env st) sf = false ->
  Str.startswith (Str.lstrip sf) "[" = false ->
  exists e st',
    Settings.merge_sources self st = (Raise e, st') /\
    (forall m d1,
        fst (Settings.parse_env_vars self st) = Ok m ->
        update_nested (VDict []) m = Ok d1 ->
        e = AttributeError).
Proof.
  intros Hsf Hne Hfile Hinline.
  pose proof (reads_world_parse_env_vars (Settings.env_prefix self) 1 "_"
                [Settings.settings_file_env_var self]) as [Hp1 Hp2].
  fold (Settings.parse_env_vars self) in Hp1, Hp2.
  unfold Settings.merge_sources.
  unfold bind at 1. unfold alloc at 1.
  set (sta := {| env := env st; heap := heap st ++ [VDict []]; trace := trace st |}).
  unfold bind at 1.
  pose proof (Hp1 st sta eq_refl) as He.
  destruct (Hp2 sta) as [Henv1 Hheap1].
  destruct (Settings.parse_env_vars self sta) as [[m|ex] st1]; simpl in He, Henv1, Hheap1.
  2:{ exists ex, st1. split; auto. intros m d1 Hm. congruence. }
  unfold bind at 1. rewrite update_nested_at_run.
  rewrite Hheap1, nth_alloc.
  destruct (update_nested (VDict []) m) as [d1|ex] eqn:Hd1.
  2:{ exists ex, st1. split; auto. intros m' d1 Hm Hd. congruence. }
  unfold bind at 1. unfold Settings.read_file.
  rewrite (read_file_none self (sf := sf)); auto.
  2:{ simpl. now rewrite Henv1. }
  unfold bind at 1. rewrite update_nested_at_run.
  destruct (nth _ _ _); simpl; eauto.
Qed.

(** C10, as amended.  Let [sf] be a non-empty string that is not the path
    of a file and whose text, once the leading white space is stripped,
    does not begin with ['[']. Then [_read_file] returns [None] for every
    object whose [settings_file] is [sf]; merging [None] raises
    [AttributeError]; and the construction with [sf] raises, with that
    [AttributeError] whenever the parser is accepted and the map of the
    environment was built and merged. *)
Theorem unreadable_settings_file_fails (sf env_prefix suffix : string)
  (filters : filter) (parser : pyobj) (st : state) :
  sf <> "" ->
  os_path_isfile (env st) sf = false ->
  Str.startswith (Str.lstrip sf) "[" = false ->
  (forall self,
      Settings.settings_file self = Some sf ->
      fst (Settings._read_file self st) = Ok VNone) /\
  (forall d, update_nested d VNone = Raise AttributeError) /\
  exists e st',
    Settings.init (Some sf) env_prefix suffix filters parser st = (Raise e, st') /\
    (pyobj_truthy parser && negb (callable parser) = false ->
     forall m d1,
       fst (parse_env_vars (build_env_var [env_prefix] "_") 1 "_"
              [build_env_var [build_env_var [env_prefix] "_"; suffix] "_"] st) = Ok m ->
       update_nested (VDict []) m = Ok d1 ->
       e = AttributeError).
Proof.
  intros Hne Hfile Hinline. split; [|split].
  - intros self Hsf. now rewrite (read_file_none self (sf := sf)).
  - reflexivity.
  - unfold Settings.init, log_exception, Settings.init_body.
    destruct (pyobj_truthy parser && negb (callable parser)) eqn:Hp.
    + simpl. eexists _, _. split; [reflexivity|]. discriminate.
    + destruct sf as [|c s]; [congruence|]. unfold Settings.str_truthy.
      unfold bind at 1. unfold ret at 1.
      set (self := {| Settings._parse := parser;
                      Settings.filters := filters;
                      Settings.env_prefix := build_env_var [env_prefix] "_";
                      Settings.settings_file_env_suffix := suffix;
                      Settings.settings_file_env_var :=
                        build_env_var [build_env_var [env_prefix] "_"; suffix] "_";
                      Settings.settings_file := Some (String c s);
                      Settings._data := None |}).
      destruct (merge_sources_none self (sf := String c s) st eq_refl Hne Hfile Hinline)
        as [e [st' [Hrun He]]].
      unfold bind at 1. unfold Settings.build_settings_map. unfold bind at 1.
      rewrite Hrun.
      eexists _, _. split; [reflexivity|].
      intros _ m d1 Hm Hd1. apply (He m d1); auto.
Qed.

Lemma unreadable_settings_file_fails_witness :
  exists st',
    Settings.init (Some "settings.toml") "APP_SETTINGS" "SETTINGS_FILE" FNone (PyVal VNone)
      (initial bare_world)
    = (Raise AttributeError, st').
Proof.
  destruct (@unreadable_settings_file_fails "settings.toml" "APP_SETTINGS" "SETTINGS_FILE"
              FNone (PyVal VNone) (initial bare_world))
    as [_ [_ [e [st' [Hrun He]]]]];
    [discriminate | reflexivity | reflexivity |].
  exists st'. rewrite Hrun.
  now rewrite (He eq_refl (VDict []) (VDict []) eq_refl eq_refl).
Defined.

(** C10, as stated, fails for the empty string, which is neither the path
    of a file nor a text that begins with ['[']: [_read_file] returns an
    empty map for it, not [None], and the construction with it returns. *)
Lemma empty_settings_file_counterexample :
  os_path_isfile bare_world "" = false /\
  Str.startswith (Str.lstrip "") "[" = false /\
  fst (Settings._read_file
         {| Settings._parse := PyVal VNone;
            Settings.filters := FNone;
            Settings.env_prefix := "APP_SETTINGS";
            Settings.settings_file_env_suffix := "SETTINGS_FILE";
            Settings.settings_file_env_var := "APP_SETTINGS_SETTINGS_FILE";
            Settings.settings_file := Some "";
            Settings._data := None |}
         (initial bare_world))
  = Ok (VDict []) /\
  constructed (Settings.init (Some "") "APP_SETTINGS" "SETTINGS_FILE" FNone (PyVal VNone)
                 (initial bare_world))
  = Ok (VDict []).
Proof. repeat split. Qed.

(** C1: the code at the input of the claim.  With the four variables of
    the example in the environment, the prefix [MY_APP] and the filters
    [{'section1': 'subsection1', 'section2': None}], the construction
    raises [ValueError] and builds no map; the map filtered is the one the
    environment gives, with its three sections. *)
Theorem settings_docstring_example_raises :
  constructed
    (Settings.init None "MY_APP" "SETTINGS_FILE"
       (FDict [("section1", FStr "subsection1"); ("section2", FNone)]) (PyVal VNone)
       (initial (with_environ
                   [("MY_APP_SECTION1_SUBSECTION1", "test1");
                    ("MY_APP_SECTION2_SUBSECTION2", "test2");
                    ("MY_APP_SECTION2_SUBSECTION3", "test3");
                    ("MY_APP_SECTION3", "not_captured")])))
  = Raise ValueError /\
  fst (parse_env_vars "MY_APP" 1 "_" ["MY_APP_SETTINGS_FILE"]
         (initial (with_environ
                     [("MY_APP_SECTION1_SUBSECTION1", "test1");
                      ("MY_APP_SECTION2_SUBSECTION2", "test2");
                      ("MY_APP_SECTION2_SUBSECTION3", "test3");
                      ("MY_APP_SECTION3", "not_captured")])))
  = Ok (VDict [("section1", VDict [("subsection1", VStr "test1")]);
               ("section2", VDict [("subsection2", VStr "test2");
                                   ("subsection3", VStr "test3")]);
               ("section3", VStr "not_captured")]).
Proof. split; vm_compute; reflexivity. Qed.

(** * Further properties *)

(** ** More on the nested merge *)

Lemma set_keeps_keys (k k' : string) (v : value) (d : Dict.t) :
  Dict.get k' d <> None -> Dict.get k' (Dict.set k v d) <> None.
Proof.
  intros H. destruct (String.eqb_spec k k') as [->|Hne].
  - rewrite get_set_same. discriminate.
  - now rewrite get_set_other.
Qed.

Lemma update_loop_keeps (items : list (string * value)) :
  forall d m k,
    update_loop items (VDict d) = Ok (VDict m) ->
    Dict.get k d <> None -> Dict.get k m <> None.
Proof.
  induction items as [|[k0 v0] rest IH]; intros d m k Hm Hk.
  - simpl in Hm. inversion Hm. now subst.
  - rewrite update_loop_step in Hm.
    destruct (merged_entry (VDict d) k0 v0) as [r|]; simpl in Hm; [|discriminate].
    eapply IH; [exact Hm|]. now apply set_keeps_keys.
Qed.

Lemma update_loop_has (items : list (string * value)) :
  forall d m k v,
    update_loop items (VDict d) = Ok (VDict m) ->
    Dict.get k items = Some v -> Dict.get k m <> None.
Proof.
  induction items as [|[k0 v0] rest IH]; intros d m k v Hm Hk; [discriminate|].
  rewrite update_loop_step in Hm. simpl in Hk.
  destruct (merged_entry (VDict d) k0 v0) as [r|]; simpl in Hm; [|discriminate].
  destruct (String.eqb_spec k k0) as [->|Hne].
  - eapply update_loop_keeps; [exact Hm|]. rewrite get_set_same. discriminate.
  - eapply IH; eauto.
Qed.

(** X1.  When [update_nested dest src] returns [m], a key that [src] does
    not have holds in [m] what it held in [dest], and the keys of [m] are
    those of [dest] and those of [src]: the merge removes no key and
    invents none. *)
Theorem update_nested_keys (dest src m : Dict.t) :
  update_nested (VDict dest) (VDict src) = Ok (VDict m) ->
  (forall k, Dict.get k src = None -> Dict.get k m = Dict.get k dest) /\
  (forall k, Dict.get k m = None <-> Dict.get k dest = None /\ Dict.get k src = None).
Proof.
  intros Hm. rewrite update_nested_dict in Hm.
  assert (Hother : forall k, Dict.get k src = None -> Dict.get k m = Dict.get k dest).
  { intros k Hk.
    destruct (update_loop_other _ _ k Hm (get_none_keys _ _ Hk)) as [m' [Heq Hget]].
    inversion Heq. now subst. }
  split; [exact Hother|].
  intros k. split.
  - intros Hk. destruct (Dict.get k src) as [v|] eqn:Hs.
    + exfalso. exact (update_loop_has _ _ _ Hm Hs Hk).
    + split; auto. now rewrite <- Hother.
  - intros [Hd Hs]. now rewrite Hother.
Qed.

Lemma update_nested_keys_witness :
  Dict.get "c" [("a", VDict [("x", VStr "1"); ("y", VStr "2")]); ("c", VStr "3");
                ("b", VStr "4")]
  = Dict.get "c" [("a", VDict [("x", VStr "1")]); ("c", VStr "3")].
Proof.
  apply (proj1 (@update_nested_keys
                  [("a", VDict [("x", VStr "1")]); ("c", VStr "3")]
                  [("a", VDict [("y", VStr "2")]); ("b", VStr "4")]
                  [("a", VDict [("x", VStr "1"); ("y", VStr "2")]); ("c", VStr "3");
                   ("b", VStr "4")] eq_refl)).
  reflexivity.
Defined.

(** X2.  Merging a dictionary that has each key once, at every level,
    into an empty dictionary returns a dictionary equal to it, with its
    keys in the same order. *)
Theorem update_nested_into_empty (items : Dict.t) :
  wf (VDict items) = true ->
  update_nested (VDict []) (VDict items) = Ok (VDict items).
Proof. intros Hwf. exact (update_nested_empty Hwf eq_refl). Qed.

Lemma update_nested_into_empty_witness :
  update_nested (VDict [])
    (VDict [("a", VDict [("x", VStr "1"); ("y", VDict [])]); ("b", VInt 2)])
  = Ok (VDict [("a", VDict [("x", VStr "1"); ("y", VDict [])]); ("b", VInt 2)]).
Proof.
  apply (@update_nested_into_empty
           [("a", VDict [("x", VStr "1"); ("y", VDict [])]); ("b", VInt 2)]).
  reflexivity.
Defined.

Lemma set_same_value (k : string) (v : value) (d : Dict.t) :
  Dict.get k d = Some v -> Dict.set k v d = d.
Proof.
  induction d as [|[k' v'] rest IH]; simpl; [discriminate|].
  destruct (String.eqb_spec k k') as [->|Hne].
  - intros H. inversion H. reflexivity.
  - intros H. now rewrite IH.
Qed.

Lemma in_get (l : Dict.t) (k : string) (v : value) :
  nodup_keys (Dict.keys l) = true -> In (k, v) l -> Dict.get k l = Some v.
Proof.
  induction l as [|[k1 v1] l IHl]; simpl; intros Hnd Hin; [contradiction|].
  apply andb_true_iff in Hnd. destruct Hnd as [H1 Hnd].
  destruct Hin as [Heq|Hin].
  - inversion Heq. now rewrite String.eqb_refl.
  - destruct (String.eqb_spec k k1) as [->|Hne]; [|auto].
    exfalso. apply negb_true_iff in H1.
    assert (H : existsb (String.eqb k1) (List.map fst l) = true).
    { apply existsb_exists. exists k1. split; [|apply String.eqb_refl].
      apply in_map_iff. exists (k1, v). auto. }
    unfold Dict.keys in H1. simpl in H1. congruence.
Qed.

Lemma update_loop_fixed (items : list (string * value)) (m : Dict.t) :
  Forall (fun kv => exists r, merged_entry (VDict m) (fst kv) (snd kv) = Ok r /\
                              Dict.get (fst kv) m = Some r) items ->
  update_loop items (VDict m) = Ok (VDict m).
Proof.
  induction items as [|[k v] rest IH]; intros Hall; [reflexivity|].
  inversion Hall as [|? ? [r [Hr Hget]] Hrest]; subst. simpl in Hr, Hget.
  rewrite update_loop_step, Hr. simpl.
  rewrite (set_same_value _ _ Hget). now apply IH.
Qed.

(** X3.  The merge is idempotent: when [update_nested d u] returns [m],
    for [u] with each key once at every level, merging [u] into [m] again
    returns [m]. *)
Theorem update_nested_idempotent (u : value) :
  wf u = true ->
  forall d m, update_nested d u = Ok m -> update_nested m u = Ok m.
Proof.
  induction u as [| z | s | items IH] using value_ind;
    intros Hwf d m Hm; try discriminate.
  rewrite update_nested_dict in *.
  destruct items as [|kv0 items0]; [reflexivity|].
  destruct (update_loop_dest (items := kv0 :: items0) d) with (m := m)
    as [dd ->]; [discriminate|exact Hm|].
  destruct (update_loop_dict _ _ Hm) as [mm ->].
  change (nodup_keys (Dict.keys (kv0 :: items0))
          && forallb (fun kv => wf (snd kv)) (kv0 :: items0) = true) in Hwf.
  apply andb_true_iff in Hwf. destruct Hwf as [Hnd Hwfs].
  apply update_loop_fixed.
  rewrite Forall_forall. intros [k v] Hin. simpl.
  pose proof (in_get (kv0 :: items0) k v Hnd Hin) as Hk.
  destruct (update_loop_entry _ _ k Hnd Hm Hk) as [m' [r [Heq [Hr Hget]]]].
  inversion Heq. subst m'. exists r. split; [|exact Hget].
  unfold merged_entry in *. destruct (is_mapping v) eqn:Hv; [|exact Hr].
  simpl. rewrite Hget. simpl.
  destruct (get_default (VDict dd) k (VDict [])) as [d0|]; simpl in Hr; [|discriminate].
  rewrite Forall_forall in IH. apply (IH (k, v) Hin) with (d := d0); auto.
  rewrite forallb_forall in Hwfs. apply (Hwfs (k, v) Hin).
Qed.

Lemma update_nested_idempotent_witness :
  update_nested (VDict [("a", VDict [("x", VStr "1"); ("y", VStr "2")]); ("b", VStr "3")])
                (VDict [("a", VDict [("y", VStr "2")]); ("b", VStr "3")])
  = Ok (VDict [("a", VDict [("x", VStr "1"); ("y", VStr "2")]); ("b", VStr "3")]).
Proof.
  apply (@update_nested_idempotent
           (VDict [("a", VDict [("y", VStr "2")]); ("b", VStr "3")]) eq_refl
           (VDict [("a", VDict [("x", VStr "1")])])).
  reflexivity.
Defined.

(** ** Letters *)

Lemma lower_char_idem (c : ascii) : Str.lower_char (Str.lower_char c) = Str.lower_char c.
Proof. destruct c as [[] [] [] [] [] [] [] []]; reflexivity. Qed.

Lemma lower_upper_char (c : ascii) : Str.lower_char (Str.upper_char c) = Str.lower_char c.
Proof. destruct c as [[] [] [] [] [] [] [] []]; reflexivity. Qed.

Lemma upper_char_idem (c : ascii) : Str.upper_char (Str.upper_char c) = Str.upper_char c.
Proof. destruct c as [[] [] [] [] [] [] [] []]; reflexivity. Qed.

Lemma map_idem (f : ascii -> ascii) (s : string) :
  (forall c, f (f c) = f c) -> Str.map f (Str.map f s) = Str.map f s.
Proof. intros Hf. induction s as [|c s IH]; simpl; [reflexivity|]. now rewrite Hf, IH. Qed.

Lemma lower_idem (s : string) : Str.lower (Str.lower s) = Str.lower s.
Proof. apply map_idem, lower_char_idem. Qed.

Lemma lower_upper (s : string) : Str.lower (Str.upper s) = Str.lower s.
Proof.
  induction s as [|c s IH]; simpl; [reflexivity|].
  unfold Str.lower, Str.upper in *. simpl. now rewrite lower_upper_char, IH.
Qed.

Lemma map_append (f : ascii -> ascii) (s t : string) :
  Str.map f (s ++ t)%string = (Str.map f s ++ Str.map f t)%string.
Proof. induction s as [|c s IH]; simpl; [reflexivity|]. now rewrite IH. Qed.

Lemma lower_drop (n : nat) (s : string) :
  Str.lower (Str.drop n s) = Str.drop n (Str.lower s).
Proof.
  revert s. induction n as [|n IH]; intros s; [reflexivity|].
  destruct s as [|c s]; simpl; [reflexivity|]. apply IH.
Qed.

(** ** The shape of the map of the environment *)

Lemma split_budget_lower (sep : ascii) (s : string) :
  forall budget,
    Str.lower s = s ->
    Forall (fun p => Str.lower p = p) (Str.split_budget sep budget s).
Proof.
  induction s as [|c rest IH]; intros budget Hs.
  - destruct budget as [[|n]|]; simpl; repeat constructor.
  - assert (Hc : Str.lower_char c = c /\ Str.lower rest = rest).
    { unfold Str.lower in *. simpl in Hs. inversion Hs as [[H1 H2]].
      rewrite H1, H2. auto. }
    destruct Hc as [Hc Hrest].
    assert (Hstep : forall b,
               Forall (fun p => Str.lower p = p)
                 (if Ascii.eqb c sep then
                    EmptyString :: Str.split_budget sep (option_map pred b) rest
                  else
                    match Str.split_budget sep b rest with
                    | piece :: more => String c piece :: more
                    | [] => [String c EmptyString]
                    end)).
    { intros b. destruct (Ascii.eqb c sep).
      - constructor; [reflexivity|]. now apply IH.
      - pose proof (IH b Hrest) as H.
        destruct (Str.split_budget sep b rest) as [|piece more].
        + repeat constructor. unfold Str.lower. simpl. now rewrite Hc.
        + inversion H as [|? ? Hp Hmore]; subst. constructor; [|exact Hmore].
          unfold Str.lower in *. simpl. now rewrite Hc, Hp. }
    destruct budget as [[|n]|]; simpl.
    + repeat constructor. exact Hs.
    + apply (Hstep (Some (S n))).
    + apply (Hstep None).
Qed.

Lemma single_branch_shaped (nested_keys : list string) (val : string) :
  Forall (fun p => Str.lower p = p) nested_keys ->
  forall u, single_branch nested_keys val = Ok u -> env_shaped u = true.
Proof.
  induction nested_keys as [|k rest IH]; intros Hall u Hu; simpl in Hu; [discriminate|].
  inversion Hall as [|? ? Hk Hrest]; subst.
  apply String.eqb_eq in Hk.
  destruct rest as [|k' rest].
  - inversion Hu. subst u. simpl. now rewrite Hk.
  - destruct (single_branch (k' :: rest) val) as [u'|]; simpl in Hu; [|discriminate].
    inversion Hu. subst u. simpl. now rewrite Hk, (IH Hrest u' eq_refl).
Qed.

Lemma env_shaped_get (k : string) (x : value) (d : Dict.t) :
  env_shaped (VDict d) = true -> Dict.get k d = Some x -> env_shaped x = true.
Proof.
  simpl. intros H Hk. rewrite forallb_forall in H.
  specialize (H (k, x) (get_in _ _ Hk)). simpl in H.
  now apply andb_true_iff in H.
Qed.

Lemma env_shaped_set (k : string) (v : value) (d : Dict.t) :
  env_shaped (VDict d) = true -> Str.lower k = k -> env_shaped v = true ->
  env_shaped (VDict (Dict.set k v d)) = true.
Proof.
  intros Hd Hk Hv. apply String.eqb_eq in Hk.
  induction d as [|[k' v'] rest IH]; simpl in *.
  - now rewrite Hk, Hv.
  - apply andb_true_iff in Hd. destruct Hd as [H1 H2].
    apply andb_true_iff in H1. destruct H1 as [Hk' Hv'].
    destruct (k =? k'); simpl.
    + now rewrite Hk', Hv, H2.
    + now rewrite Hk', Hv', IH.
Qed.

Lemma update_nested_shaped (u : value) :
  env_shaped u = true ->
  forall d m, env_shaped d = true -> update_nested d u = Ok m -> env_shaped m = true.
Proof.
  induction u as [| z | s | items IH] using value_ind;
    intros Hu d m Hd Hm; try discriminate.
  rewrite update_nested_dict in Hm. simpl in Hu.
  revert d m Hd Hm.
  induction items as [|[k v] rest IHrest]; intros d m Hd Hm.
  - simpl in Hm. inversion Hm. now subst.
  - rewrite update_loop_step in Hm.
    inversion IH as [|? ? IHv IHtail]; subst. simpl in IHv, Hu.
    apply andb_true_iff in Hu. destruct Hu as [Hkv Hu].
    apply andb_true_iff in Hkv. destruct Hkv as [Hk Hv].
    apply String.eqb_eq in Hk.
    destruct (merged_entry d k v) as [r|] eqn:Hr; simpl in Hm; [|discriminate].
    destruct d as [| | | dd]; simpl in Hm; try discriminate.
    apply (IHrest IHtail Hu (VDict (Dict.set k r dd))); auto.
    apply env_shaped_set; auto.
    unfold merged_entry in Hr. destruct (is_mapping v).
    + simpl in Hr. destruct (Dict.get k dd) as [d0|] eqn:Hget; simpl in Hr.
      * apply (IHv Hv d0); auto. eapply env_shaped_get; eauto.
      * apply (IHv Hv (VDict [])); auto.
    + inversion Hr. now subst.
Qed.

Lemma parse_env_vars_loop_shaped exclude_set env_prefix split_char max_depth vars :
  forall d st m st',
    env_shaped (VDict d) = true ->
    parse_env_vars_loop exclude_set env_prefix split_char max_depth vars (VDict d) st
    = (Ok m, st') ->
    env_shaped m = true.
Proof.
  induction vars as [|[env_var val] rest IH]; intros d st m st' Hd Hrun; simpl in Hrun.
  - inversion Hrun. now subst.
  - destruct (existsb _ _ || negb _); [eapply IH; eauto|].
    destruct (is_nil _); [eapply IH; eauto|].
    unfold bind at 1 in Hrun. unfold lift at 1 in Hrun.
    destruct (single_branch _ val) as [update|] eqn:Hupdate; [|discriminate].
    assert (Hshape : env_shaped update = true).
    { eapply single_branch_shaped; [|exact Hupdate].
      apply split_budget_lower. rewrite lower_drop. now rewrite lower_idem. }
    destruct (single_branch_wf _ _ Hupdate) as [_ [uitems ->]].
    unfold bind at 1 in Hrun. unfold emit at 1 in Hrun.
    unfold bind at 1 in Hrun. unfold lift at 1 in Hrun.
    destruct (update_nested (VDict d) (VDict uitems)) as [sm|] eqn:Hsm; [|discriminate].
    destruct (update_nested_dict_result _ _ Hsm) as [d' ->].
    eapply IH; [|exact Hrun].
    eapply update_nested_shaped; [exact Hshape| |exact Hsm]. exact Hd.
Qed.

(** X4.  The map that [parse_env_vars] returns is a dictionary in which,
    at every level, every key is in lower case and every leaf is a
    string. *)
Theorem parse_env_vars_shape env_prefix max_depth split_char exclude st m st' :
  parse_env_vars env_prefix max_depth split_char exclude st = (Ok m, st') ->
  is_mapping m = true /\ env_shaped m = true.
Proof.
  intros Hrun.
  destruct (parse_env_vars_wf _ _ _ _ _ Hrun) as [_ [items ->]].
  split; [reflexivity|].
  revert Hrun. unfold parse_env_vars.
  destruct split_char as [|c [|]]; try discriminate.
  match goal with
  | |- (if ?b then _ else _) _ = _ -> _ => destruct b
  end.
  - intros H. inversion H. reflexivity.
  - unfold bind, ask, emit. apply parse_env_vars_loop_shaped. reflexivity.
Qed.

Lemma parse_env_vars_shape_witness :
  env_shaped (VDict [("db", VDict [("host_name", VStr "Example.ORG")]);
                     ("debug", VStr "1")]) = true.
Proof.
  apply (@parse_env_vars_shape "My_App" 1 "_" []
           (initial (with_environ [("MY_APP_DB_Host_Name", "Example.ORG");
                                   ("my_app_DEBUG", "1"); ("OTHER", "x")]))
           (VDict [("db", VDict [("host_name", VStr "Example.ORG")]);
                   ("debug", VStr "1")])
           {| env := with_environ [("MY_APP_DB_Host_Name", "Example.ORG");
                                   ("my_app_DEBUG", "1"); ("OTHER", "x")];
              heap := [];
              trace := [EvEnvironScan;
                        EvLog INFO "Getting settings from env var: MY_APP_DB_Host_Name";
                        EvLog INFO "Getting settings from env var: my_app_DEBUG"] |}).
  reflexivity.
Defined.

(** ** The depth of the map of the environment *)

Lemma depth_dict_le (items : Dict.t) (b : nat) :
  depth (VDict items) <= S b <-> Forall (fun kv => depth (snd kv) <= b) items.
Proof.
  simpl. induction items as [|[k v] rest IH]; simpl.
  - split; [constructor|lia].
  - split.
    + intros H. constructor; [simpl; lia|]. apply IH. lia.
    + intros H. inversion H as [|? ? Hv Hrest]; subst. simpl in Hv.
      apply IH in Hrest. lia.
Qed.

Lemma depth_get (k : string) (x : value) (d : Dict.t) (b : nat) :
  depth (VDict d) <= S b -> Dict.get k d = Some x -> depth x <= b.
Proof.
  intros H Hk. apply depth_dict_le in H. rewrite Forall_forall in H.
  apply (H (k, x)). now apply get_in.
Qed.

Lemma depth_set (k : string) (v : value) (d : Dict.t) (b : nat) :
  depth (VDict d) <= S b -> depth v <= b -> depth (VDict (Dict.set k v d)) <= S b.
Proof.
  intros Hd Hv. apply depth_dict_le. apply depth_dict_le in Hd.
  induction d as [|[k' v'] rest IH]; simpl.
  - repeat constructor. exact Hv.
  - inversion Hd as [|? ? H1 H2]; subst.
    destruct (k =? k'); constructor; auto.
Qed.

Lemma update_nested_depth (u : value) :
  forall b d m,
    depth u <= b -> depth d <= b -> update_nested d u = Ok m -> depth m <= b.
Proof.
  induction u as [| z | s | items IH] using value_ind;
    intros b d m Hu Hd Hm; try discriminate.
  rewrite update_nested_dict in Hm.
  destruct b as [|b]; [simpl in Hu; lia|].
  apply depth_dict_le in Hu.
  revert d m Hd Hm.
  induction items as [|[k v] rest IHrest]; intros d m Hd Hm.
  - simpl in Hm. inversion Hm. now subst.
  - rewrite update_loop_step in Hm.
    inversion IH as [|? ? IHv IHtail]; subst. simpl in IHv.
    inversion Hu as [|? ? Hv Hrest]; subst. simpl in Hv.
    destruct (merged_entry d k v) as [r|] eqn:Hr; simpl in Hm; [|discriminate].
    destruct d as [| | | dd]; simpl in Hm; try discriminate.
    apply (IHrest IHtail Hrest (VDict (Dict.set k r dd))); auto.
    apply depth_set; auto.
    unfold merged_entry in Hr. destruct v as [| | | vitems]; simpl in Hr;
      try (inversion Hr; subst; simpl; lia).
    destruct (Dict.get k dd) as [d0|] eqn:Hget; simpl in Hr.
    + apply (IHv b d0); auto. eapply depth_get; eauto.
    + apply (IHv b (VDict [])); auto. simpl in *. lia.
Qed.

Lemma split_budget_length (sep : ascii) (s : string) :
  forall n, List.length (Str.split_budget sep (Some n) s) <= S n.
Proof.
  induction s as [|c rest IH]; intros [|n]; simpl; try lia.
  destruct (Ascii.eqb c sep).
  - simpl. specialize (IH n). lia.
  - specialize (IH (S n)).
    destruct (Str.split_budget sep (Some (S n)) rest); simpl in *; lia.
Qed.

Lemma single_branch_depth (nested_keys : list string) (val : string) :
  forall u, single_branch nested_keys val = Ok u -> depth u = List.length nested_keys.
Proof.
  induction nested_keys as [|k rest IH]; intros u Hu; simpl in Hu; [discriminate|].
  destruct rest as [|k' rest].
  - inversion Hu. reflexivity.
  - destruct (single_branch (k' :: rest) val) as [u'|]; simpl in Hu; [|discriminate].
    inversion Hu. subst u. specialize (IH u' eq_refl).
    simpl in *. rewrite IH. lia.
Qed.

Lemma parse_env_vars_loop_depth exclude_set env_prefix split_char max_depth vars :
  (0 <= max_depth)%Z ->
  forall d st m st',
    depth (VDict d) <= S (Z.to_nat max_depth) ->
    parse_env_vars_loop exclude_set env_prefix split_char max_depth vars (VDict d) st
    = (Ok m, st') ->
    depth m <= S (Z.to_nat max_depth).
Proof.
  intros Hmax.
  induction vars as [|[env_var val] rest IH]; intros d st m st' Hd Hrun; simpl in Hrun.
  - inversion Hrun. now subst.
  - destruct (existsb _ _ || negb _); [eapply IH; eauto|].
    destruct (is_nil _); [eapply IH; eauto|].
    unfold bind at 1 in Hrun. unfold lift at 1 in Hrun.
    destruct (single_branch _ val) as [update|] eqn:Hupdate; [|discriminate].
    assert (Hdepth : depth update <= S (Z.to_nat max_depth)).
    { rewrite (single_branch_depth _ _ Hupdate). unfold Str.split.
      destruct (max_depth <? 0)%Z eqn:E; [apply Z.ltb_lt in E; lia|].
      apply split_budget_length. }
    destruct (single_branch_wf _ _ Hupdate) as [_ [uitems ->]].
    unfold bind at 1 in Hrun. unfold emit at 1 in Hrun.
    unfold bind at 1 in Hrun. unfold lift at 1 in Hrun.
    destruct (update_nested (VDict d) (VDict uitems)) as [sm|] eqn:Hsm; [|discriminate].
    destruct (update_nested_dict_result _ _ Hsm) as [d' ->].
    eapply IH; [|exact Hrun].
    eapply update_nested_depth; [exact Hdepth| |exact Hsm]. exact Hd.
Qed.

(** X5.  For a [max_depth] that is not negative, the map that
    [parse_env_vars] returns nests dictionaries at most [max_depth + 1]
    deep: a variable gives at most [max_depth] levels above its leaf. *)
Theorem parse_env_vars_depth env_prefix max_depth split_char exclude st m st' :
  (0 <= max_depth)%Z ->
  parse_env_vars env_prefix max_depth split_char exclude st = (Ok m, st') ->
  depth m <= S (Z.to_nat max_depth).
Proof.
  intros Hmax Hrun.
  destruct (parse_env_vars_wf _ _ _ _ _ Hrun) as [_ [items ->]].
  revert Hrun. unfold parse_env_vars.
  destruct split_char as [|c [|]]; try discriminate.
  match goal with
  | |- (if ?b then _ else _) _ = _ -> _ => destruct b
  end.
  - intros H. inversion H. simpl. lia.
  - unfold bind, ask, emit. apply parse_env_vars_loop_depth; [exact Hmax|]. simpl. lia.
Qed.

Lemma parse_env_vars_depth_witness :
  depth (VDict [("a", VDict [("b_c_d", VStr "1")]); ("e", VStr "2")]) <= 2.
Proof.
  apply (@parse_env_vars_depth "X" 1 "_" []
           (initial (with_environ [("X_A_B_C_D", "1"); ("X_E", "2")]))
           (VDict [("a", VDict [("b_c_d", VStr "1")]); ("e", VStr "2")])
           {| env := with_environ [("X_A_B_C_D", "1"); ("X_E", "2")];
              heap := [];
              trace := [EvEnvironScan;
                        EvLog INFO "Getting settings from env var: X_A_B_C_D";
                        EvLog INFO "Getting settings from env var: X_E"] |});
    [lia | reflexivity].
Defined.

(** ** Which variables the decomposition reads *)

Lemma parse_env_vars_loop_environ exclude_set env_prefix split_char max_depth vars v :
  forall sm st,
    parse_env_vars_loop exclude_set env_prefix split_char max_depth vars sm
      (set_environ v st)
    = (fst (parse_env_vars_loop exclude_set env_prefix split_char max_depth vars sm st),
       set_environ v
         (snd (parse_env_vars_loop exclude_set env_prefix split_char max_depth vars sm st))).
Proof.
  induction vars as [|[env_var val] rest IH]; intros sm st; simpl.
  - reflexivity.
  - destruct (existsb _ _ || negb _); [apply IH|].
    destruct (is_nil _); [apply IH|].
    unfold bind, lift, emit.
    destruct (single_branch _ val) as [update|]; [|reflexivity].
    destruct (update_nested sm update) as [sm'|]; [|reflexivity].
    apply (IH sm' {| env := env st; heap := heap st;
                     trace := trace st ++
                              [EvLog INFO ("Getting settings from env var: " ++ env_var)%string]
                  |}).
Qed.

Lemma parse_env_vars_loop_filter exclude_set env_prefix split_char max_depth
  (keep : string * string -> bool) vars :
  (forall kv,
      existsb (String.eqb (Str.lower (fst kv))) exclude_set
      || negb (Str.startswith (Str.lower (fst kv)) env_prefix) = false ->
      keep kv = true) ->
  forall sm st,
    parse_env_vars_loop exclude_set env_prefix split_char max_depth vars sm st
    = parse_env_vars_loop exclude_set env_prefix split_char max_depth
        (List.filter keep vars) sm st.
Proof.
  intros Hkeep.
  induction vars as [|[env_var val] rest IH]; intros sm st; [reflexivity|].
  simpl List.filter.
  destruct (existsb (String.eqb (Str.lower env_var)) exclude_set
            || negb (Str.startswith (Str.lower env_var) env_prefix)) eqn:Hskip.
  - destruct (keep (env_var, val)); simpl; rewrite Hskip; apply IH.
  - rewrite (Hkeep (env_var, val) Hskip). simpl. rewrite Hskip.
    destruct (is_nil _); [apply IH|].
    unfold bind, lift, emit.
    destruct (single_branch _ val) as [update|]; [|reflexivity].
    destruct (update_nested sm update) as [sm'|]; [|reflexivity].
    apply IH.
Qed.

(** The outcome and the log of [parse_env_vars] are those it has on the
    environment without the variables that [keep] refuses, when [keep]
    accepts every variable that is considered. *)
Lemma parse_env_vars_filter env_prefix max_depth (c : ascii) exclude
  (keep : string * string -> bool) (st : state) :
  (forall kv, considered env_prefix c exclude (fst kv) = true -> keep kv = true) ->
  parse_env_vars env_prefix max_depth (String c EmptyString) exclude
    (set_environ (List.filter keep (os_environ (env st))) st)
  = (fst (parse_env_vars env_prefix max_depth (String c EmptyString) exclude st),
     set_environ (List.filter keep (os_environ (env st)))
       (snd (parse_env_vars env_prefix max_depth (String c EmptyString) exclude st))).
Proof.
  intros Hkeep. unfold parse_env_vars.
  match goal with
  | |- (if ?b then _ else _) _ = _ => destruct b
  end; [reflexivity|].
  unfold bind, ask, emit. cbn [env heap trace os_environ set_environ].
  rewrite (parse_env_vars_loop_filter _ _ _ _ keep (os_environ (env st))).
  - apply (parse_env_vars_loop_environ _ _ _ _ _ _ _
             {| env := env st; heap := heap st; trace := trace st ++ [EvEnvironScan] |}).
  - intros kv Hkv. apply Hkeep. unfold considered, normal_prefix.
    apply orb_false_iff in Hkv. destruct Hkv as [H1 H2].
    rewrite H1. apply negb_false_iff in H2. now rewrite H2.
Qed.


(** X7.  The settings of a [Settings] object never hold the variable that
    names its settings file: the outcome and the log of
    [Settings.parse_env_vars] are the same when the variables of that
    name, in whatever case, are removed from the environment. *)
Theorem settings_file_variable_ignored (self : Settings.t) (st : state) :
  Settings.parse_env_vars self
    (set_environ
       (List.filter
          (fun kv => negb (Str.lower (fst kv)
                           =? Str.lower (Settings.settings_file_env_var self)))
          (os_environ (env st))) st)
  = (fst (Settings.parse_env_vars self st),
     set_environ
       (List.filter
          (fun kv => negb (Str.lower (fst kv)
                           =? Str.lower (Settings.settings_file_env_var self)))
          (os_environ (env st)))
       (snd (Settings.parse_env_vars self st))).
Proof.
  unfold Settings.parse_env_vars.
  apply (parse_env_vars_filter (Settings.env_prefix self) 1 "_"
           [Settings.settings_file_env_var self]).
  intros kv Hkv. unfold considered in Hkv. simpl in Hkv.
  apply andb_true_iff in Hkv. destruct Hkv as [Hkv _].
  now rewrite orb_false_r in Hkv.
Qed.

(** ** How the arguments of the decomposition are normalised *)

(** X8.  On ASCII arguments, [parse_env_vars] does not look at the case:
    with the prefix, the split character and the excluded names in upper
    case it does what it does with them as given. *)
Theorem parse_env_vars_case_insensitive env_prefix max_depth split_char exclude st :
  ascii_string env_prefix = true ->
  ascii_string split_char = true ->
  forallb ascii_string exclude = true ->
  parse_env_vars (Str.upper env_prefix) max_depth (Str.upper split_char)
    (List.map Str.upper exclude) st
  = parse_env_vars env_prefix max_depth split_char exclude st.
Proof.
  intros _ _ _. unfold parse_env_vars.
  destruct split_char as [|c0 [|c1 s]]; try reflexivity.
  change (Str.upper (String c0 EmptyString)) with (String (Str.upper_char c0) EmptyString).
  cbv iota beta.
  rewrite lower_upper_char, lower_upper, map_map.
  rewrite (map_ext (fun x => Str.lower (Str.upper x)) Str.lower lower_upper).
  reflexivity.
Qed.

Lemma parse_env_vars_case_insensitive_witness :
  parse_env_vars "MY_APP" 1 "_" ["MY_APP_SETTINGS_FILE"]
    (initial (with_environ [("My_App_Db_Host", "h"); ("MY_APP_SETTINGS_FILE", "f")]))
  = parse_env_vars "my_app" 1 "_" ["my_app_settings_file"]
      (initial (with_environ [("My_App_Db_Host", "h"); ("MY_APP_SETTINGS_FILE", "f")])).
Proof.
  apply (@parse_env_vars_case_insensitive "my_app" 1 "_" ["my_app_settings_file"]
           (initial (with_environ [("My_App_Db_Host", "h");
                                   ("MY_APP_SETTINGS_FILE", "f")])));
    reflexivity.
Defined.

Lemma rstrip_chars_snoc (c : ascii) (s : string) :
  Str.rstrip_chars (String c EmptyString) (s ++ String c EmptyString)%string
  = Str.rstrip_chars (String c EmptyString) s.
Proof.
  induction s as [|a s IH]; simpl.
  - now rewrite Ascii.eqb_refl.
  - now rewrite IH.
Qed.

(** X9.  On an ASCII prefix and an ASCII split character, a split
    character at the end of the prefix changes nothing:
    [parse_env_vars] does with [env_prefix + split_char] what it does with
    [env_prefix]. *)
Theorem parse_env_vars_trailing_split_char env_prefix max_depth (c : ascii) exclude st :
  ascii_string env_prefix = true ->
  ascii_char c = true ->
  parse_env_vars (env_prefix ++ String c EmptyString)%string max_depth
    (String c EmptyString) exclude st
  = parse_env_vars env_prefix max_depth (String c EmptyString) exclude st.
Proof.
  intros _ _. unfold parse_env_vars, Str.lower.
  rewrite map_append.
  change (Str.map Str.lower_char (String c EmptyString))
    with (String (Str.lower_char c) EmptyString).
  now rewrite rstrip_chars_snoc.
Qed.

Lemma parse_env_vars_trailing_split_char_witness :
  parse_env_vars "MY_APP_" 1 "_" []
    (initial (with_environ [("MY_APP_DB_HOST", "h"); ("OTHER", "x")]))
  = parse_env_vars "MY_APP" 1 "_" []
      (initial (with_environ [("MY_APP_DB_HOST", "h"); ("OTHER", "x")])).
Proof.
  apply (@parse_env_vars_trailing_split_char "MY_APP" 1 "_" []
           (initial (with_environ [("MY_APP_DB_HOST", "h"); ("OTHER", "x")])));
    reflexivity.
Defined.

Lemma rstrip_chars_repeat (c : ascii) (n : nat) :
  Str.rstrip_chars (String c EmptyString) (repeat_char c n) = EmptyString.
Proof.
  induction n as [|n IH]; simpl; [reflexivity|].
  now rewrite IH, Ascii.eqb_refl.
Qed.

Lemma lower_repeat (c : ascii) (n : nat) :
  Str.lower (repeat_char c n) = repeat_char (Str.lower_char c) n.
Proof.
  induction n as [|n IH]; simpl; [reflexivity|].
  unfold Str.lower in *. simpl. now rewrite IH.
Qed.

(** X10.  For an ASCII split character, with an empty prefix, or a prefix
    made of split characters only, [parse_env_vars] returns an empty map
    and reads nothing: it does not take every variable of the
    environment. *)
Theorem parse_env_vars_empty_prefix (n : nat) max_depth (c : ascii) exclude st :
  ascii_char c = true ->
  parse_env_vars (repeat_char c n) max_depth (String c EmptyString) exclude st
  = (Ok (VDict []), st).
Proof.
  intros _. unfold parse_env_vars.
  now rewrite lower_repeat, rstrip_chars_repeat.
Qed.

Lemma parse_env_vars_empty_prefix_witness :
  parse_env_vars "__" 1 "_" []
    (initial (with_environ [("_A", "1"); ("__B", "2"); ("C", "3")]))
  = (Ok (VDict []), initial (with_environ [("_A", "1"); ("__B", "2"); ("C", "3")])).
Proof.
  apply (@parse_env_vars_empty_prefix 2 1 "_" []
           (initial (with_environ [("_A", "1"); ("__B", "2"); ("C", "3")]))).
  reflexivity.
Defined.

(** ** Where the value of a variable goes *)






(** ** What the subtree filter leaves alone *)

Lemma keeps_ret n {A} (a : A) : keeps n (ret a).
Proof. intros st Hn. simpl. auto. Qed.

Lemma keeps_raise n {A} (e : exn) : keeps n (@raise A e).
Proof. intros st Hn. simpl. auto. Qed.

Lemma keeps_lift n {A} (r : result A) : keeps n (lift r).
Proof. intros st Hn. simpl. auto. Qed.

Lemma keeps_emit n (e : event) : keeps n (emit e).
Proof. intros st Hn. simpl. auto. Qed.

Lemma keeps_deref n (l : loc) : keeps n (deref l).
Proof. intros st Hn. simpl. auto. Qed.

Lemma keeps_bind n {A B} (m : M A) (f : A -> M B) :
  keeps n m -> (forall a, keeps n (f a)) -> keeps n (bind m f).
Proof.
  intros Hm Hf st Hn. unfold bind.
  destruct (Hm st Hn) as [E1 [E2 E3]].
  destruct (m st) as [[a|e] st1]; simpl in *; auto.
  destruct (Hf a st1) as [E4 [E5 E6]]; [lia|].
  repeat split; [congruence|congruence|lia].
Qed.

Lemma firstn_app_le (n : nat) (l1 l2 : list value) :
  n <= List.length l1 -> firstn n (l1 ++ l2) = firstn n l1.
Proof.
  intros Hn. rewrite firstn_app.
  replace (n - List.length l1) with 0 by lia. simpl. apply app_nil_r.
Qed.

Lemma keeps_alloc n (v : value) {B} (f : loc -> M B) :
  (forall l, n <= l -> keeps n (f l)) -> keeps n (bind (alloc v) f).
Proof.
  intros Hf st Hn. unfold bind, alloc.
  destruct (Hf (List.length (heap st)) Hn
              {| env := env st; heap := heap st ++ [v]; trace := trace st |})
    as [E1 [E2 E3]]; cbn [env heap trace] in *.
  { rewrite length_app. lia. }
  repeat split; auto.
  - rewrite E2. now rewrite firstn_app_le by lia.
  - rewrite length_app in E3. lia.
Qed.

Lemma firstn_replace_nth (n l : nat) (v : value) (h : list value) :
  n <= l -> firstn n (replace_nth l v h) = firstn n h.
Proof.
  revert n l. induction h as [|x h IH]; intros n l Hn; [now destruct l|].
  destruct l as [|l].
  - assert (n = 0) by lia. subst. reflexivity.
  - destruct n as [|n]; simpl; [reflexivity|]. f_equal. apply IH. lia.
Qed.

Lemma keeps_assign n (l : loc) (v : value) : n <= l -> keeps n (assign l v).
Proof.
  intros Hl st Hn. unfold assign. cbn [snd env heap].
  repeat split.
  - now apply firstn_replace_nth.
  - now rewrite length_replace_nth.
Qed.

Lemma keeps_dict_update_at n (d other : loc) : n <= d -> keeps n (dict_update_at d other).
Proof.
  intros Hd. unfold dict_update_at.
  apply keeps_bind; [apply keeps_deref|]. intros old.
  apply keeps_bind; [apply keeps_deref|]. intros o.
  destruct old; try apply keeps_raise.
  apply keeps_bind; [apply keeps_lift|]. intros new.
  now apply keeps_assign.
Qed.

Lemma keeps_subtree_str n data key ph : keeps n (subtree_str data key ph).
Proof.
  unfold subtree_str. apply keeps_bind; [apply keeps_deref|]. intros d.
  assert (Halloc : forall v, keeps n (alloc v)).
  { intros v st Hn. unfold alloc. cbn [snd env heap].
    repeat split.
    - now rewrite firstn_app_le by lia.
    - rewrite length_app. lia. }
  destruct (getitem d key) as [v|[]]; try apply keeps_raise.
  - apply Halloc.
  - apply keeps_bind; [apply keeps_emit|]. intros _. apply Halloc.
Qed.

Lemma keeps_subtree_key n data key ph : keeps n (subtree_key data key ph).
Proof.
  unfold subtree_key.
  destruct (negb _ || _); [apply keeps_ret|apply keeps_subtree_str].
Qed.

Lemma subtree_FDict (data : loc) items (ph : list string) :
  subtree data (FDict items) ph =
  if negb (filter_truthy (FDict items)) || is_wildcard (FDict items) then ret data
  else (new_data <- alloc (VDict []) ;; subtree_dict_loop data ph new_data items).
Proof. reflexivity. Qed.

Lemma subtree_FList (data : loc) items (ph : list string) :
  subtree data (FList items) ph =
  if negb (filter_truthy (FList items)) || is_wildcard (FList items) then ret data
  else (new_data <- alloc (VDict []) ;; subtree_list_loop data ph new_data items).
Proof. reflexivity. Qed.

Lemma keeps_subtree (filters : filter) :
  forall n data ph, keeps n (subtree data filters ph).
Proof.
  induction filters as [| z | s | items IH | items IH] using filter_ind;
    intros n data ph.
  - apply keeps_ret.
  - simpl. destruct (negb _ || false); [apply keeps_ret|apply keeps_raise].
  - rewrite subtree_FStr. apply keeps_subtree_key.
  - rewrite subtree_FDict.
    destruct (negb _ || _); [apply keeps_ret|].
    apply keeps_alloc. intros new_data Hnew.
    induction items as [|[k v] rest IHrest]; simpl; [apply keeps_ret|].
    inversion IH as [|? ? IHv IHtail]; subst. simpl in IHv.
    apply keeps_bind; [apply keeps_subtree_key|]. intros subdata_root.
    apply keeps_bind; [apply IHv|]. intros subdata.
    apply keeps_bind; [now apply keeps_dict_update_at|]. intros _.
    now apply IHrest.
  - rewrite subtree_FList.
    destruct (negb _ || _); [apply keeps_ret|].
    apply keeps_alloc. intros new_data Hnew.
    induction items as [|f rest IHrest]; simpl; [apply keeps_ret|].
    inversion IH as [|? ? IHf IHtail]; subst.
    apply keeps_bind; [apply IHf|]. intros r.
    apply keeps_bind; [now apply keeps_dict_update_at|]. intros _.
    now apply IHrest.
Qed.

(** X12.  [subtree] never changes [data], nor any other object that
    exists when it is called, nor the world, whatever the filter and
    whether it returns or raises: the objects of the state it leaves
    start with those of the state it was given. *)
Theorem subtree_leaves_objects (data : loc) (filters : filter) (ph : list string)
  (st : state) :
  env (snd (subtree data filters ph st)) = env st /\
  firstn (List.length (heap st)) (heap (snd (subtree data filters ph st))) = heap st.
Proof.
  destruct (@keeps_subtree filters (List.length (heap st)) data ph st (le_n _))
    as [E1 [E2 _]].
  split; [exact E1|]. rewrite E2. apply firstn_all.
Qed.

(** ** The subtree filter on a single key *)

Lemma subtree_key_present (data : loc) (items : Dict.t) (key : string) (v : value)
  (ph : list string) (st : state) :
  nth data (heap st) VNone = VDict items ->
  Dict.get key items = Some v ->
  key <> "" ->
  key <> "*" ->
  subtree data (FStr key) ph st =
  (Ok (List.length (heap st)),
   {| env := env st; heap := heap st ++ [v]; trace := trace st |}).
Proof.
  intros Hdata Hget Hne Hnw.
  apply String.eqb_neq in Hne, Hnw.
  simpl. rewrite Hne, Hnw. simpl.
  unfold subtree_str, bind, deref. rewrite Hdata. simpl. rewrite Hget.
  reflexivity.
Qed.

(** X13.  For a dictionary [data] that has the key [key], neither empty
    nor ['*'], [subtree] with the filter [key] returns an object whose
    value is [data[key]], changes neither the world nor the log, and,
    when [data[key]] is a dictionary, the object is a new one: a copy. *)
Theorem subtree_present_key (data : loc) (items : Dict.t) (key : string) (v : value)
  (ph : list string) (st : state) :
  nth data (heap st) VNone = VDict items ->
  Dict.get key items = Some v ->
  key <> "" ->
  key <> "*" ->
  exists l st',
    subtree data (FStr key) ph st = (Ok l, st') /\
    nth l (heap st') VNone = v /\
    env st' = env st /\
    trace st' = trace st /\
    (is_mapping v = true -> l = List.length (heap st) /\ l <> data).
Proof.
  intros Hdata Hget Hne Hnw.
  rewrite (@subtree_key_present data items key v ph st Hdata Hget Hne Hnw).
  eexists _, _. split; [reflexivity|]. cbn [env heap trace].
  split; [apply nth_alloc|]. split; [reflexivity|]. split; [reflexivity|].
  intros _. split; [reflexivity|].
  intros Heq. rewrite <- Heq in Hdata.
  rewrite nth_overflow in Hdata by lia. discriminate.
Qed.

Lemma subtree_present_key_witness :
  exists l st',
    subtree 0 (FStr "a") ["settings"]
      {| env := bare_world; heap := [VDict [("a", VDict [("x", VStr "1")])]]; trace := [] |}
    = (Ok l, st') /\
    nth l (heap st') VNone = VDict [("x", VStr "1")] /\
    l = 1.
Proof.
  destruct (@subtree_present_key 0 [("a", VDict [("x", VStr "1")])] "a"
              (VDict [("x", VStr "1")]) ["settings"]
              {| env := bare_world; heap := [VDict [("a", VDict [("x", VStr "1")])]];
                 trace := [] |})
    as [l [st' [Hrun [Hval [_ [_ Hnew]]]]]];
    [reflexivity | reflexivity | discriminate | discriminate |].
  exists l, st'. split; [exact Hrun|]. split; [exact Hval|].
  exact (proj1 (Hnew eq_refl)).
Defined.

(** X14.  When [data] is not a dictionary, [subtree] with a key, neither
    empty nor ['*'], raises [TypeError]: only a missing key is turned into
    a warning and an empty map.  Nothing is logged and no object is
    made. *)
Theorem subtree_key_of_scalar (data : loc) (key : string) (ph : list string)
  (st : state) :
  is_mapping (nth data (heap st) VNone) = false ->
  key <> "" ->
  key <> "*" ->
  subtree data (FStr key) ph st = (Raise TypeError, st).
Proof.
  intros Hdata Hne Hnw.
  apply String.eqb_neq in Hne, Hnw.
  simpl. rewrite Hne, Hnw. simpl.
  unfold subtree_str, bind, deref.
  destruct (nth data (heap st) VNone); try discriminate; reflexivity.
Qed.

Lemma subtree_key_of_scalar_witness :
  subtree 0 (FStr "a") ["settings"]
    {| env := bare_world; heap := [VStr "leaf"]; trace := [] |}
  = (Raise TypeError, {| env := bare_world; heap := [VStr "leaf"]; trace := [] |}).
Proof.
  apply (@subtree_key_of_scalar 0 "a" ["settings"]
           {| env := bare_world; heap := [VStr "leaf"]; trace := [] |});
    solve [reflexivity | discriminate].
Defined.

(** ** The subtree filter on a collection of keys *)

Lemma dict_update_at_run (d other : loc) (items new : Dict.t) (st : state) :
  nth d (heap st) VNone = VDict items ->
  dict_update items (nth other (heap st) VNone) = Ok new ->
  dict_update_at d other st =
  (Ok tt,
   {| env := env st; heap := replace_nth d (VDict new) (heap st); trace := trace st |}).
Proof.
  intros Hd Hnew. unfold dict_update_at, bind, deref, lift, assign.
  rewrite Hd, Hnew. reflexivity.
Qed.

Lemma subtree_list_loop_cons (data : loc) (ph : list string) (new_data : loc)
  (f : filter) (rest : list filter) :
  subtree_list_loop data ph new_data (f :: rest) =
  (r <- subtree data f ph ;;
   dict_update_at new_data r ;;
   subtree_list_loop data ph new_data rest).
Proof. reflexivity. Qed.

Lemma subtree_list_loop_keys (d : Dict.t) (ph : list string) (keys : list string) :
  Forall (fun k => k <> "" /\ k <> "*" /\ exists dk, Dict.get k d = Some (VDict dk)) keys ->
  forall acc ext w t,
  exists ext',
    subtree_list_loop 0 ph 1 (List.map FStr keys)
      {| env := w; heap := VDict d :: VDict acc :: ext; trace := t |}
    = (Ok 1,
       {| env := w;
          heap := VDict d
                  :: VDict (fold_left
                              (fun acc k =>
                                 match Dict.get k d with
                                 | Some (VDict dk) => Dict.update_items acc dk
                                 | _ => acc
                                 end) keys acc)
                  :: ext';
          trace := t |}).
Proof.
  induction keys as [|k rest IH]; intros Hall acc ext w t.
  - exists ext. reflexivity.
  - inversion Hall as [|? ? [Hne [Hnw [dk Hk]]] Hrest]; subst.
    destruct (IH Hrest (Dict.update_items acc dk) (ext ++ [VDict dk]) w t) as [ext' Hrun].
    exists ext'. simpl List.map. rewrite subtree_list_loop_cons.
    unfold bind at 1.
    rewrite (@subtree_key_present 0 d k (VDict dk) ph
               {| env := w; heap := VDict d :: VDict acc :: ext; trace := t |}
               eq_refl Hk Hne Hnw).
    cbn [env heap trace]. unfold bind at 1.
    rewrite (@dict_update_at_run 1 (List.length (VDict d :: VDict acc :: ext)) acc
               (Dict.update_items acc dk)).
    + simpl fold_left. rewrite Hk. exact Hrun.
    + reflexivity.
    + cbn [heap]. change (VDict d :: VDict acc :: ext)
        with ([VDict d; VDict acc] ++ ext).
      rewrite <- app_assoc, length_app. simpl List.length.
      rewrite app_nth2 by (simpl; lia).
      replace (2 + List.length ext - List.length [VDict d; VDict acc])
        with (List.length ext) by (simpl; lia).
      rewrite nth_alloc. reflexivity.
Qed.

(** X15.  For a dictionary [data] and a non-empty collection of keys,
    each neither empty nor ['*'] and each holding a dictionary in [data],
    [subtree] with the collection as filter returns a new dictionary
    updated, as [dict.update] does, with [data[k]] for each key [k] in
    turn, and logs nothing. *)
Theorem subtree_collection_of_keys (d : Dict.t) (keys : list string) (ph : list string) :
  keys <> [] ->
  Forall (fun k => k <> "" /\ k <> "*" /\ exists dk, Dict.get k d = Some (VDict dk)) keys ->
  subtree_value (VDict d) (FList (List.map FStr keys)) ph
  = (Ok (VDict (collected d keys)), []).
Proof.
  intros Hne Hall. unfold subtree_value. rewrite subtree_FList.
  destruct keys as [|k0 keys0]; [congruence|].
  change (negb (filter_truthy (FList (List.map FStr (k0 :: keys0))))
          || is_wildcard (FList (List.map FStr (k0 :: keys0)))) with false.
  cbv iota. unfold bind at 1. unfold alloc at 1. cbn [env heap trace app List.length].
  destruct (@subtree_list_loop_keys d ph (k0 :: keys0) Hall [] [] bare_world [])
    as [ext' Hrun].
  rewrite Hrun. reflexivity.
Qed.

Lemma subtree_collection_of_keys_witness :
  subtree_value
    (VDict [("a", VDict [("x", VStr "1")]); ("b", VDict [("x", VStr "2"); ("y", VStr "3")]);
            ("c", VDict [("z", VStr "4")]); ("d", VStr "5")])
    (FList [FStr "a"; FStr "b"; FStr "c"]) ["settings"]
  = (Ok (VDict [("x", VStr "2"); ("y", VStr "3"); ("z", VStr "4")]), []).
Proof.
  apply (@subtree_collection_of_keys
           [("a", VDict [("x", VStr "1")]); ("b", VDict [("x", VStr "2"); ("y", VStr "3")]);
            ("c", VDict [("z", VStr "4")]); ("d", VStr "5")]
           ["a"; "b"; "c"] ["settings"]).
  - discriminate.
  - repeat constructor; try discriminate; eexists; reflexivity.
Defined.

(** ** The constructed object *)

(** X16.  When the construction returns, the object holds the filters and
    the parser it was given, the normalised prefix, the name of the
    variable of the settings file built from it, and as settings file the
    argument [settings_file] when it is a non-empty string: the argument
    wins over the variable.  Otherwise it holds what the variable holds
    in the environment, if anything. *)
Theorem init_attributes (settings_file : option string) (env_prefix suffix : string)
  (filters : filter) (parser : pyobj) (st st' : state) (self : Settings.t) :
  Settings.init settings_file env_prefix suffix filters parser st = (Ok self, st') ->
  Settings._parse self = parser /\
  Settings.filters self = filters /\
  Settings.env_prefix self = build_env_var [env_prefix] "_" /\
  Settings.settings_file_env_suffix self = suffix /\
  Settings.settings_file_env_var self
  = build_env_var [build_env_var [env_prefix] "_"; suffix] "_" /\
  Settings.settings_file self
  = match settings_file with
    | Some (String c s) => Some (String c s)
    | _ => option_map snd
             (List.find
                (fun kv => fst kv
                           =? build_env_var [build_env_var [env_prefix] "_"; suffix] "_")
                (os_environ (env st)))
    end.
Proof.
  unfold Settings.init, log_exception, Settings.init_body.
  destruct (pyobj_truthy parser && negb (callable parser)); [discriminate|].
  unfold bind at 1.
  destruct (Settings.str_truthy settings_file) eqn:Htruthy.
  - unfold ret at 1. unfold bind at 1.
    destruct (Settings.build_settings_map _ st) as [[l|e] st1]; [|discriminate].
    unfold ret. intros H. inversion H. subst self. cbn.
    repeat split.
    destruct settings_file as [[|c s]|]; try discriminate. reflexivity.
  - unfold environ_get. unfold bind at 1. unfold ask. unfold bind at 1. unfold emit.
    unfold ret at 1. cbn [env heap trace]. unfold bind at 1.
    destruct (Settings.build_settings_map _ _) as [[l|e] st1]; [|discriminate].
    unfold ret. intros H. inversion H. subst self. cbn.
    repeat split.
    destruct settings_file as [[|c s]|]; try discriminate; reflexivity.
Qed.

Lemma init_attributes_witness :
  Settings.settings_file
    {| Settings._parse := PyVal VNone;
       Settings.filters := FNone;
       Settings.env_prefix := "APP_SETTINGS";
       Settings.settings_file_env_suffix := "SETTINGS_FILE";
       Settings.settings_file_env_var := "APP_SETTINGS_SETTINGS_FILE";
       Settings.settings_file := Some "[a]";
       Settings._data := Some 0 |}
  = Some "[a]".
Proof.
  apply (@init_attributes (Some "[a]") "APP_SETTINGS" "SETTINGS_FILE" FNone (PyVal VNone)
           (initial
              {| os_environ := [("APP_SETTINGS_SETTINGS_FILE", "/etc/app.toml")];
                 os_path_isfile := fun _ => false;
                 toml_load := fun _ => Raise OSError;
                 toml_loads := fun _ => Ok (VDict [("a", VDict [])]) |})
           {| env := {| os_environ := [("APP_SETTINGS_SETTINGS_FILE", "/etc/app.toml")];
                        os_path_isfile := fun _ => false;
                        toml_load := fun _ => Raise OSError;
                        toml_loads := fun _ => Ok (VDict [("a", VDict [])]) |};
              heap := [VDict [("a", VDict [])]];
              trace := [EvEnvironScan; EvIsFile "[a]"] |}).
  reflexivity.
Defined.

Lemma build_settings_map_parser (filters : filter) (env_prefix suffix var : string)
  (sf : option string) (f : value -> result value) (st : state) :
  Settings.build_settings_map
    {| Settings._parse := PyFun f;
       Settings.filters := filters;
       Settings.env_prefix := env_prefix;
       Settings.settings_file_env_suffix := suffix;
       Settings.settings_file_env_var := var;
       Settings.settings_file := sf;
       Settings._data := None |} st
  = match Settings.build_settings_map
            {| Settings._parse := PyVal VNone;
               Settings.filters := filters;
               Settings.env_prefix := env_prefix;
               Settings.settings_file_env_suffix := suffix;
               Settings.settings_file_env_var := var;
               Settings.settings_file := sf;
               Settings._data := None |} st with
    | (Ok l, st') =>
        match f (nth l (heap st') VNone) with
        | Ok v =>
            (Ok (List.length (heap st')),
             {| env := env st'; heap := heap st' ++ [v]; trace := trace st' |})
        | Raise e => (Raise e, st')
        end
    | (Raise e, st') => (Raise e, st')
    end.
Proof.
  unfold Settings.build_settings_map, bind.
  change (Settings.merge_sources
            {| Settings._parse := PyFun f;
               Settings.filters := filters;
               Settings.env_prefix := env_prefix;
               Settings.settings_file_env_suffix := suffix;
               Settings.settings_file_env_var := var;
               Settings.settings_file := sf;
               Settings._data := None |})
    with (Settings.merge_sources
            {| Settings._parse := PyVal VNone;
               Settings.filters := filters;
               Settings.env_prefix := env_prefix;
               Settings.settings_file_env_suffix := suffix;
               Settings.settings_file_env_var := var;
               Settings.settings_file := sf;
               Settings._data := None |}).
  destruct (Settings.merge_sources _ st) as [[l|e] st1]; [|reflexivity].
  unfold Settings.subtree. cbn [Settings.filters].
  destruct (subtree l filters ["settings"] st1) as [[l'|e] st2]; [|reflexivity].
  unfold Settings.parse. cbn [Settings._parse pyobj_truthy truthy].
  unfold bind, deref, lift, alloc, ret.
  destruct (f (nth l' (heap st2) VNone)); reflexivity.
Qed.

(** X17.  The parser is applied last, to the map that the construction
    gives without a parser: with a function [f] as parser, the map of the
    constructed object is [f] of that map, and the construction raises
    what the construction without a parser raises, or what [f] raises. *)
Theorem init_applies_parser_last (settings_file : option string)
  (env_prefix suffix : string) (filters : filter) (f : value -> result value)
  (st : state) :
  constructed (Settings.init settings_file env_prefix suffix filters (PyFun f) st)
  = rbind (constructed
             (Settings.init settings_file env_prefix suffix filters (PyVal VNone) st))
          f.
Proof.
  unfold constructed, Settings.init, log_exception, Settings.init_body.
  cbn [pyobj_truthy callable truthy negb andb].
  unfold bind.
  destruct (if Settings.str_truthy settings_file then ret settings_file
            else environ_get
                   (build_env_var [build_env_var [env_prefix] "_"; suffix] "_"))
    as [r st0] eqn:Hsf.
  assert (Hok : exists sf, r = Ok sf).
  { destruct (Settings.str_truthy settings_file).
    - inversion Hsf. eauto.
    - unfold environ_get, bind, ask, emit, ret in Hsf. inversion Hsf. eauto. }
  destruct Hok as [sf ->].
  rewrite build_settings_map_parser.
  destruct (Settings.build_settings_map _ st0) as [[l|e] st1]; [|reflexivity].
  unfold ret. cbn [fst snd Settings.data Settings._data heap rbind env trace].
  destruct (f (nth l (heap st1) VNone)) as [v|e]; [|reflexivity].
  cbn [fst snd Settings.data Settings._data heap rbind env trace].
  now rewrite nth_alloc.
Qed.

(** ** The mapping view *)

Lemma in_keys_get (k : string) (d : Dict.t) :
  In k (Dict.keys d) <-> exists v, Dict.get k d = Some v.
Proof.
  induction d as [|[k' v'] rest IH]; simpl.
  - split; [contradiction|]. intros [v Hv]. discriminate.
  - destruct (String.eqb_spec k k') as [->|Hne].
    + split; eauto.
    + rewrite <- IH. split; [|auto]. intros [H|H]; [congruence|exact H].
Qed.

(** X18.  When the map behind a [Settings] object is a dictionary, the
    three methods of its mapping view agree: [__len__] is the number of
    keys that [__iter__] yields, [__getitem__] returns for exactly these
    keys, and raises [KeyError] for every other key. *)
Theorem mapping_view_agrees (self : Settings.t) (st : state) (items : Dict.t) :
  Settings.data self st = VDict items ->
  exists keys,
    Settings.__iter__ self st = Ok keys /\
    Settings.__len__ self st = Ok (List.length keys) /\
    (forall k, In k keys <-> exists v, Settings.__getitem__ self k st = Ok v) /\
    (forall k, ~ In k keys <-> Settings.__getitem__ self k st = Raise KeyError).
Proof.
  intros Hdata. exists (Dict.keys items).
  unfold Settings.__iter__, Settings.__len__, Settings.__getitem__.
  rewrite Hdata. simpl. repeat split.
  - unfold Dict.keys. now rewrite length_map.
  - intros Hin. apply in_keys_get in Hin. destruct Hin as [v Hv].
    exists v. now rewrite Hv.
  - intros [v Hv]. apply in_keys_get.
    destruct (Dict.get k items) as [x|]; [eauto|discriminate].
  - intros Hnot. destruct (Dict.get k items) as [x|] eqn:Hget; [|reflexivity].
    exfalso. apply Hnot. apply in_keys_get. eauto.
  - intros Hraise Hin. apply in_keys_get in Hin. destruct Hin as [v Hv].
    rewrite Hv in Hraise. discriminate.
Qed.

Lemma mapping_view_agrees_witness :
  exists keys,
    Settings.__iter__
      {| Settings._parse := PyVal VNone;
         Settings.filters := FNone;
         Settings.env_prefix := "APP_SETTINGS";
         Settings.settings_file_env_suffix := "SETTINGS_FILE";
         Settings.settings_file_env_var := "APP_SETTINGS_SETTINGS_FILE";
         Settings.settings_file := None;
         Settings._data := Some 0 |}
      {| env := bare_world;
         heap := [VDict [("a", VDict [("b", VStr "1")]); ("c", VStr "2")]];
         trace := [] |}
    = Ok keys /\
    Settings.__len__
      {| Settings._parse := PyVal VNone;
         Settings.filters := FNone;
         Settings.env_prefix := "APP_SETTINGS";
         Settings.settings_file_env_suffix := "SETTINGS_FILE";
         Settings.settings_file_env_var := "APP_SETTINGS_SETTINGS_FILE";
         Settings.settings_file := None;
         Settings._data := Some 0 |}
      {| env := bare_world;
         heap := [VDict [("a", VDict [("b", VStr "1")]); ("c", VStr "2")]];
         trace := [] |}
    = Ok (List.length keys).
Proof.
  destruct (@mapping_view_agrees
              {| Settings._parse := PyVal VNone;
                 Settings.filters := FNone;
                 Settings.env_prefix := "APP_SETTINGS";
                 Settings.settings_file_env_suffix := "SETTINGS_FILE";
                 Settings.settings_file_env_var := "APP_SETTINGS_SETTINGS_FILE";
                 Settings.settings_file := None;
                 Settings._data := Some 0 |}
              {| env := bare_world;
                 heap := [VDict [("a", VDict [("b", VStr "1")]); ("c", VStr "2")]];
                 trace := [] |}
              [("a", VDict [("b", VStr "1")]); ("c", VStr "2")] eq_refl)
    as [keys [Hiter [Hlen _]]].
  exists keys. split; assumption.
Defined.

(** ** The names that [build_env_var] builds *)

Lemma mem_underscore_upper (c : ascii) :
  Str.mem (Str.upper_char c) "_" = Str.mem c "_".
Proof. destruct c as [[] [] [] [] [] [] [] []]; reflexivity. Qed.

Lemma upper_idem (s : string) : Str.upper (Str.upper s) = Str.upper s.
Proof. apply map_idem, upper_char_idem. Qed.

Lemma lstrip_upper (s : string) :
  Str.lstrip_chars "_" (Str.upper s) = Str.upper (Str.lstrip_chars "_" s).
Proof.
  induction s as [|c s IH]; [reflexivity|].
  change (Str.upper (String c s)) with (String (Str.upper_char c) (Str.upper s)).
  cbn [Str.lstrip_chars]. rewrite mem_underscore_upper.
  destruct (Str.mem c "_"); [exact IH|reflexivity].
Qed.

Lemma rstrip_upper (s : string) :
  Str.rstrip_chars "_" (Str.upper s) = Str.upper (Str.rstrip_chars "_" s).
Proof.
  induction s as [|c s IH]; [reflexivity|].
  change (Str.upper (String c s)) with (String (Str.upper_char c) (Str.upper s)).
  cbn [Str.rstrip_chars]. rewrite IH, mem_underscore_upper.
  destruct (Str.rstrip_chars "_" s) as [|a r]; [|reflexivity].
  destruct (Str.mem c "_"); reflexivity.
Qed.

Lemma lstrip_idem (chars s : string) :
  Str.lstrip_chars chars (Str.lstrip_chars chars s) = Str.lstrip_chars chars s.
Proof.
  induction s as [|c s IH]; [reflexivity|]. simpl.
  destruct (Str.mem c chars) eqn:E; [exact IH|]. simpl. now rewrite E.
Qed.

Lemma rstrip_idem (chars s : string) :
  Str.rstrip_chars chars (Str.rstrip_chars chars s) = Str.rstrip_chars chars s.
Proof.
  induction s as [|c s IH]; [reflexivity|]. simpl.
  destruct (Str.rstrip_chars chars s) as [|a r] eqn:E.
  - destruct (Str.mem c chars) eqn:Ec; [reflexivity|]. simpl. now rewrite Ec.
  - change (Str.rstrip_chars chars (String c (String a r)))
      with (match Str.rstrip_chars chars (String a r) with
            | EmptyString => if Str.mem c chars then EmptyString else String c EmptyString
            | r0 => String c r0
            end).
    now rewrite IH.
Qed.

Lemma rstrip_lstrip (chars t : string) :
  Str.rstrip_chars chars t = t ->
  Str.rstrip_chars chars (Str.lstrip_chars chars t) = Str.lstrip_chars chars t.
Proof.
  induction t as [|c t IH]; [reflexivity|]. intros Ht. simpl.
  destruct (Str.mem c chars) eqn:Ec; [|exact Ht].
  apply IH. simpl in Ht. rewrite Ec in Ht.
  destruct (Str.rstrip_chars chars t) as [|a r]; [discriminate|].
  now inversion Ht.
Qed.

Lemma strip_idem (chars s : string) :
  Str.strip_chars chars (Str.strip_chars chars s) = Str.strip_chars chars s.
Proof.
  unfold Str.strip_chars.
  rewrite (@rstrip_lstrip chars (Str.rstrip_chars chars s) (rstrip_idem chars s)).
  apply lstrip_idem.
Qed.

Lemma strip_upper (s : string) :
  Str.strip_chars "_" (Str.upper s) = Str.upper (Str.strip_chars "_" s).
Proof. unfold Str.strip_chars. now rewrite rstrip_upper, lstrip_upper. Qed.

Lemma normalise_idem (p : string) :
  Str.upper (Str.strip_chars "_" (Str.upper (Str.strip_chars "_" p)))
  = Str.upper (Str.strip_chars "_" p).
Proof. now rewrite strip_upper, strip_idem, upper_idem. Qed.

(** X19.  A name built by [build_env_var] can be used as a part again:
    with the normalised prefix as first part, as [__init__] does for the
    variable of the settings file, the name is the one built from the
    parts as given. *)
Theorem build_env_var_normalised (p : string) (rest : list string) :
  build_env_var (build_env_var [p] "_" :: rest) "_" = build_env_var (p :: rest) "_".
Proof.
  unfold build_env_var. simpl List.map. cbn [Str.join].
  now rewrite normalise_idem.
Qed.

(** X20.  The construction does the same with a prefix and with its
    normalised form: upper case, without underscores around it. *)
Theorem init_prefix_normalised (settings_file : option string)
  (env_prefix suffix : string) (filters : filter) (parser : pyobj) (st : state) :
  Settings.init settings_file (build_env_var [env_prefix] "_") suffix filters parser st
  = Settings.init settings_file env_prefix suffix filters parser st.
Proof.
  unfold Settings.init, Settings.init_body.
  assert (H : build_env_var [build_env_var [env_prefix] "_"] "_"
              = build_env_var [env_prefix] "_").
  { unfold build_env_var. simpl. apply normalise_idem. }
  rewrite H. reflexivity.
Qed.

(** ** Errors of the sources *)

(** X21.  [_read_file] raises nothing of its own and catches nothing:
    when it raises, the settings file is a non-empty string and the
    exception is the one raised by opening and loading the file, when the
    string is the path of a file, and by the TOML library loading the
    string itself otherwise. *)
Theorem read_file_raises_toml (self : Settings.t) (st st' : state) (e : exn) :
  Settings._read_file self st = (Raise e, st') ->
  exists sf,
    Settings.settings_file self = Some sf /\
    sf <> "" /\
    ((os_path_isfile (env st) sf = true /\ toml_load (env st) sf = Raise e) \/
     (os_path_isfile (env st) sf = false /\ toml_loads (env st) sf = Raise e)).
Proof.
  unfold Settings._read_file.
  destruct (Settings.settings_file self) as [[|c s]|]; try discriminate.
  unfold bind, ask, emit, lift, ret. cbn [env heap trace].
  intros Hrun. exists (String c s). split; [reflexivity|]. split; [discriminate|].
  destruct (os_path_isfile (env st) (String c s)).
  - left. split; [reflexivity|].
    destruct (toml_load (env st) (String c s)); inversion Hrun. reflexivity.
  - right. split; [reflexivity|].
    destruct (Str.startswith (Str.lstrip (String c s)) "["); [|discriminate].
    destruct (toml_loads (env st) (String c s)); inversion Hrun. reflexivity.
Qed.

Lemma read_file_raises_toml_witness :
  exists sf,
    Some "[broken" = Some sf /\
    sf <> "" /\
    ((os_path_isfile bare_world sf = true /\ toml_load bare_world sf = Raise TomlDecodeError)
     \/ (os_path_isfile bare_world sf = false
         /\ toml_loads bare_world sf = Raise TomlDecodeError)).
Proof.
  apply (@read_file_raises_toml
           {| Settings._parse := PyVal VNone;
              Settings.filters := FNone;
              Settings.env_prefix := "APP_SETTINGS";
              Settings.settings_file_env_suffix := "SETTINGS_FILE";
              Settings.settings_file_env_var := "APP_SETTINGS_SETTINGS_FILE";
              Settings.settings_file := Some "[broken";
              Settings._data := None |}
           (initial bare_world)
           {| env := bare_world; heap := []; trace := [EvIsFile "[broken"] |}
           TomlDecodeError).
  reflexivity.
Defined.
